(** * Queens game backend: board generation, solver, validator and rooms

    A shallow embedding of [src/server/gameLogic.js] and of the socket
    handlers of [src/server/index.js], followed by the properties of the
    specification that were checked against it.

    Conventions.
    - Row and column numbers and region ids are JavaScript numbers that
      only ever hold integers here; they are modelled as [Z].
    - A grid entry is a JavaScript value: [null], a number, or [undefined]
      when a row is read past its end.
    - [Math.floor(Math.random() * n)] draws an integer of [0, n).  The
      random source is a tape [nat -> nat]; the [i]-th draw for a bound [n]
      is [tape i mod n], and the position on the tape is threaded through.
    - Loops that the source does not bound run on fuel; a run that
      exhausts its fuel has no result. *)

From Stdlib Require Import ZArith Lia Ascii.
From stdpp Require Import base tactics option list relations strings.

Local Open Scope Z_scope.

(** ** Outcomes of a JavaScript call *)

Inductive result (A : Type) : Type :=
| Ret (a : A)      (* normal completion *)
| TypeError        (* a property of [undefined] or [null] was read *)
| OutOfFuel.       (* the run did not finish within the fuel *)
Arguments Ret {A} a.
Arguments TypeError {A}.
Arguments OutOfFuel {A}.

Definition bind {A B : Type} (m : result A) (k : A -> result B) : result B :=
  match m with
  | Ret a => k a
  | TypeError => TypeError
  | OutOfFuel => OutOfFuel
  end.

Declare Scope js_scope.
Delimit Scope js_scope with js.
Notation "'let*' p ':=' m 'in' k" := (bind m (fun p => k))
  (at level 10, p pattern, m at level 100, k at level 200) : js_scope.
Local Open Scope js_scope.

(** ** gameLogic.js *)

Module GameLogic.

Definition BOARD_SIZE : Z := 8.
Definition NUM_REGIONS : Z := 8.

Inductive value : Type :=
| VUndefined
| VNull
| VNum (n : Z).

#[global] Instance value_eq_dec : EqDecision value.
Proof. solve_decision. Defined.

(** [a === b] on grid entries. *)
Definition strictEq (a b : value) : bool := bool_decide (a = b).

Record Cell : Type := mkCell { row : Z; col : Z }.

#[global] Instance Cell_eq_dec : EqDecision Cell.
Proof. solve_decision. Defined.

(** A grid is an array of rows. *)
Abbreviation Grid := (list (list value)).

(** [regions[r]]: [None] stands for [undefined]. *)
Definition rowAt (g : Grid) (r : Z) : option (list value) :=
  if 0 <=? r then g !! Z.to_nat r else None.

(** [line[c]] for an existing row. *)
Definition entryAt (line : list value) (c : Z) : value :=
  if 0 <=? c then default VUndefined (line !! Z.to_nat c) else VUndefined.

(** [regions[r][c]]: a [TypeError] when [regions[r]] is [undefined]. *)
Definition cellAt (g : Grid) (r c : Z) : result value :=
  match rowAt g r with
  | Some line => Ret (entryAt line c)
  | None => TypeError
  end.

(** ** Sets of the solver ([new Set()], insertion ordered) *)

Section JsSet.
Context {A : Type} `{EqDecision A}.

Definition setHas (x : A) (s : list A) : bool := bool_decide (x ∈ s).
Definition setAdd (x : A) (s : list A) : list A :=
  if setHas x s then s else s ++ [x].
Definition setDelete (x : A) (s : list A) : list A :=
  filter (fun y => y ≠ x) s.
End JsSet.

(** ** findSolution *)

Record SolverState : Type := mkSolver {
  usedRegions : list value;
  usedRows : list Z;
  usedCols : list Z;
  solution : list Cell
}.

Definition initSolver : SolverState := mkSolver [] [] [] [].

Definition isUnderAttack (r c : Z) (queens : list Cell) : bool :=
  existsb (fun queen => Z.abs (row queen - r) =? Z.abs (col queen - c)) queens.

Definition addQueen (r c : Z) (regionId : value) (st : SolverState) : SolverState :=
  mkSolver (setAdd regionId (usedRegions st)) (setAdd r (usedRows st))
           (setAdd c (usedCols st)) (solution st ++ [mkCell r c]).

Definition removeQueen (r c : Z) (regionId : value) (st : SolverState) : SolverState :=
  mkSolver (setDelete regionId (usedRegions st)) (setDelete r (usedRows st))
           (setDelete c (usedCols st)) (removelast (solution st)).

(** The [for (let col = 0; col < BOARD_SIZE; col++)] loop of [placeQueens],
    from column [c] on; [next] is the call [placeQueens(row + 1)]. *)
Fixpoint tryColumns (next : SolverState -> result (bool * SolverState))
    (regions : Grid) (r : Z) (cols : list Z) (st : SolverState)
    : result (bool * SolverState) :=
  match cols with
  | [] => Ret (false, st)
  | c :: rest =>
    let* regionId := cellAt regions r c in
    if setHas c (usedCols st) || setHas regionId (usedRegions st) then
      tryColumns next regions r rest st
    else if isUnderAttack r c (solution st) then
      tryColumns next regions r rest st
    else
      let* (found, st') := next (addQueen r c regionId st) in
      if found : bool then Ret (true, st')
      else tryColumns next regions r rest (removeQueen r c regionId st')
  end.

Definition columns : list Z := seqZ 0 BOARD_SIZE.

Fixpoint placeQueens (fuel : nat) (regions : Grid) (r : Z) (st : SolverState)
    : result (bool * SolverState) :=
  match fuel with
  | O => OutOfFuel
  | S fuel' =>
    if BOARD_SIZE <=? r then Ret (true, st)
    else if setHas r (usedRows st) then placeQueens fuel' regions (r + 1) st
    else tryColumns (placeQueens fuel' regions (r + 1)) regions r columns st
  end.

(** [findSolution(regions)]: [Some] solution array or [None] for [null].
    The recursion on the row is at most nine calls deep. *)
Definition findSolution (regions : Grid) : result (option (list Cell)) :=
  let* (found, st) := placeQueens 9 regions 0 initSolver in
  if found : bool then Ret (Some (solution st)) else Ret None.

(** ** generateRegions *)

(** The source of [Math.random()]. *)
Definition Tape : Type := nat -> nat.

(** [Math.floor(Math.random() * n)] at position [i] of the tape. *)
Definition randomInt (tape : Tape) (n : nat) (i : nat) : nat * nat :=
  ((tape i mod n)%nat, S i).

(** [regions[r][c]] inside the generator: every index it uses lies in
    [0, 8) and the grid is 8 by 8, so the read never fails. *)
Definition getCell (g : Grid) (r c : Z) : value :=
  match cellAt g r c with
  | Ret v => v
  | _ => VUndefined
  end.

(** [regions[r][c] = v], for an index inside the grid (the generator
    guards every write with the bounds of the board). *)
Definition setCell (g : Grid) (r c : Z) (v : value) : Grid :=
  match rowAt g r with
  | Some line => <[Z.to_nat r := <[Z.to_nat c := v]> line]> g
  | None => g
  end.

(** [Array(8).fill().map(() => Array(8).fill(null))] *)
Definition emptyGrid : Grid :=
  replicate (Z.to_nat BOARD_SIZE) (replicate (Z.to_nat BOARD_SIZE) VNull).

(** The [do ... while (regions[startRow][startCol] !== null)] loop. *)
Fixpoint pickStart (tape : Tape) (fuel : nat) (g : Grid) (i : nat)
    : result (Z * Z * nat) :=
  match fuel with
  | O => OutOfFuel
  | S fuel' =>
    let '(startRow, i) := randomInt tape (Z.to_nat BOARD_SIZE) i in
    let '(startCol, i) := randomInt tape (Z.to_nat BOARD_SIZE) i in
    if negb (strictEq (getCell g (Z.of_nat startRow) (Z.of_nat startCol)) VNull)
    then pickStart tape fuel' g i
    else Ret (Z.of_nat startRow, Z.of_nat startCol, i)
  end.

(** up, right, down, left *)
Definition directions : list (Z * Z) := [(-1, 0); (0, 1); (1, 0); (0, -1)].

(** The [for (const {dr, dc} of directions)] loop of [growRegion], with
    its [break] once the target size is reached. *)
Fixpoint scanDirections (dirs : list (Z * Z)) (r c regionId targetSize : Z)
    (g : Grid) (cellsInRegion : Z) (queue : list Cell)
    : Grid * Z * list Cell :=
  match dirs with
  | [] => (g, cellsInRegion, queue)
  | (dr, dc) :: rest =>
    let newRow := r + dr in
    let newCol := c + dc in
    if (0 <=? newRow) && (newRow <? BOARD_SIZE) &&
       (0 <=? newCol) && (newCol <? BOARD_SIZE) &&
       strictEq (getCell g newRow newCol) VNull
    then
      let g := setCell g newRow newCol (VNum regionId) in
      let cellsInRegion := cellsInRegion + 1 in
      let queue := queue ++ [mkCell newRow newCol] in
      if targetSize <=? cellsInRegion then (g, cellsInRegion, queue)
      else scanDirections rest r c regionId targetSize g cellsInRegion queue
    else scanDirections rest r c regionId targetSize g cellsInRegion queue
  end.

(** The [while (queue.length > 0 && cellsInRegion < targetSize)] loop. *)
Fixpoint growLoop (tape : Tape) (fuel : nat) (regionId targetSize : Z)
    (g : Grid) (cellsInRegion : Z) (queue : list Cell) (i : nat)
    : result (Grid * Z * nat) :=
  match fuel with
  | O => OutOfFuel
  | S fuel' =>
    if (0 <? length queue)%nat && (cellsInRegion <? targetSize) then
      let '(randomIndex, i) := randomInt tape (length queue) i in
      let cell := default (mkCell 0 0) (queue !! randomIndex) in
      let queue := delete randomIndex queue in
      let '(g, cellsInRegion, queue) :=
        scanDirections directions (row cell) (col cell) regionId targetSize
                       g cellsInRegion queue in
      growLoop tape fuel' regionId targetSize g cellsInRegion queue i
    else Ret (g, cellsInRegion, i)
  end.

Definition growRegion (tape : Tape) (fuel : nat) (g : Grid)
    (startRow startCol regionId : Z) (i : nat) : result (Grid * Z * nat) :=
  let g := setCell g startRow startCol (VNum regionId) in
  let '(t, i) := randomInt tape 10 i in
  let targetSize := Z.of_nat t + 3 in
  growLoop tape fuel regionId targetSize g 1 [mkCell startRow startCol] i.

(** The two nested loops that set to [null] every cell whose entry is
    [regionId]. *)
Definition resetCells (g : Grid) (regionId : Z) : Grid :=
  foldl (fun g r =>
    foldl (fun g c =>
      if strictEq (getCell g r c) (VNum regionId) then setCell g r c VNull
      else g) g (seqZ 0 BOARD_SIZE)) g (seqZ 0 BOARD_SIZE).

(** One pass of the body of [for (let regionId = 0; ...; regionId++)],
    up to and including the increment: the grid, [usedRegionIds] and the
    value of [regionId] at the next test of the loop condition. *)
Definition regionStep (tape : Tape) (fuel : nat) (g : Grid)
    (usedRegionIds : list Z) (regionId : Z) (i : nat)
    : result (Grid * list Z * Z * nat) :=
  let* (startRow, startCol, i) := pickStart tape fuel g i in
  let* (g, cellsInRegion, i) :=
    growRegion tape fuel g startRow startCol regionId i in
  if cellsInRegion <? 3 then
    let regionId := regionId - 1 in
    let g := resetCells g regionId in
    Ret (g, usedRegionIds, regionId + 1, i)
  else
    Ret (g, setAdd regionId usedRegionIds, regionId + 1, i).

Fixpoint regionLoop (tape : Tape) (fuel : nat) (g : Grid)
    (usedRegionIds : list Z) (regionId : Z) (i : nat)
    : result (Grid * list Z * nat) :=
  match fuel with
  | O => OutOfFuel
  | S fuel' =>
    if regionId <? NUM_REGIONS then
      let* (g, usedRegionIds, regionId, i) :=
        regionStep tape fuel' g usedRegionIds regionId i in
      regionLoop tape fuel' g usedRegionIds regionId i
    else Ret (g, usedRegionIds, i)
  end.

(** The scan for a [null] cell; the [break]s only cut it short. *)
Definition allCellsFilled (g : Grid) : bool :=
  forallb (fun r =>
    forallb (fun c => negb (strictEq (getCell g r c) VNull))
            (seqZ 0 BOARD_SIZE)) (seqZ 0 BOARD_SIZE).

Fixpoint generateRegions (tape : Tape) (fuel : nat) (i : nat)
    : result (Grid * nat) :=
  match fuel with
  | O => OutOfFuel
  | S fuel' =>
    let* (regions, usedRegionIds, i) :=
      regionLoop tape fuel' emptyGrid [] 0 i in
    if negb (allCellsFilled regions) ||
       negb (length usedRegionIds =? Z.to_nat NUM_REGIONS)%nat
    then generateRegions tape fuel' i
    else Ret (regions, i)
  end.

(** ** generatePuzzleBoard *)

Record Board : Type := mkBoard {
  regions : Grid;
  boardSolution : option (list Cell)
}.

Definition generatePuzzleBoard (tape : Tape) (fuel : nat) (i : nat)
    : result (Board * nat) :=
  let* (regions, i) := generateRegions tape fuel i in
  let* solution := findSolution regions in
  Ret (mkBoard regions solution, i).

(** ** validateQueenPlacement *)

Inductive Validation : Type :=
| Valid
| Invalid (message : string).

(** [queens.some(queen => board.regions[queen.row][queen.col] === regionId)] *)
Fixpoint someInRegion (g : Grid) (regionId : value) (queens : list Cell)
    : result bool :=
  match queens with
  | [] => Ret false
  | queen :: rest =>
    let* v := cellAt g (row queen) (col queen) in
    if strictEq v regionId then Ret true else someInRegion g regionId rest
  end.

Definition validateQueenPlacement (board : Board) (r c : Z)
    (queens : list Cell) : result Validation :=
  let* regionId := cellAt (regions board) r c in
  if existsb (fun queen => row queen =? r) queens then
    Ret (Invalid "There's already a queen in this row")
  else if existsb (fun queen => col queen =? c) queens then
    Ret (Invalid "There's already a queen in this column")
  else
    let* sameRegion := someInRegion (regions board) regionId queens in
    if sameRegion : bool then
      Ret (Invalid "There's already a queen in this region")
    else if existsb (fun queen =>
                Z.abs (row queen - r) =? Z.abs (col queen - c)) queens then
      Ret (Invalid "Queens cannot attack each other diagonally")
    else Ret Valid.

End GameLogic.

(** ** index.js: rooms and socket handlers *)

Module Server.
Import GameLogic.

Record Player : Type := mkPlayer {
  player_id : string;        (* [id]: the socket id *)
  player_name : string;      (* [name] *)
  ready : bool;
  queens : list Cell;
  marks : list Cell
}.

Record Room : Type := mkRoom {
  room_id : string;          (* [id] *)
  players : list Player;
  gameStarted : bool;
  board : option Board       (* [None] is [null] *)
}.

(** Who an emitted event is addressed to. *)
Inductive Audience : Type :=
| ToSocket (socketId : string)               (* [socket.emit] *)
| ToRoom (roomId : string)                   (* [io.to(roomId).emit] *)
| ToOthers (roomId : string) (socketId : string). (* [socket.to(roomId).emit] *)

Inductive Message : Type :=
| gameCreated (roomId playerId playerName : string)
| error (message : string)
| gameJoined (roomId playerId playerName : string) (opponent : option Player)
| playerJoined (playerId playerName : string)
| playerReadyChanged (playerId : string) (isReady : bool)
| gameCountdown
| gameStart (b : Board)
| invalidMove (message : string)
| queenPlaced (playerId : string) (r c : Z)
| gameWon (playerId playerName : string)
| cellUnmarked (playerId : string) (r c : Z)
| cellMarked (playerId : string) (r c : Z)
| gameRestarted
| newPuzzleRequested
| playerDisconnected (playerId playerName : string).

Definition Emit : Type := (Audience * Message)%type.

(** The process state: the [gameRooms] object (own properties, in
    insertion order), the callbacks handed to [setTimeout] that have not
    run yet (oldest first; all have the same delay, so they run in this
    order), and the position on the random tape. *)
Record State : Type := mkState {
  gameRooms : list (string * Room);
  timers : list (string * Board);
  rng : nat
}.

Definition initState : State := mkState [] [] 0.

(** *** The [gameRooms] object *)

(** Property names that [gameRooms], an object literal, inherits from
    [Object.prototype]; reading one of them yields a function or an
    object, never a room. *)
Definition inheritedKeys : list string :=
  ["constructor"; "__proto__"; "hasOwnProperty"; "isPrototypeOf";
   "propertyIsEnumerable"; "toLocaleString"; "toString"; "valueOf";
   "__defineGetter__"; "__defineSetter__"; "__lookupGetter__";
   "__lookupSetter__"].

Inductive Found : Type :=
| Own (room : Room)     (* a room stored under this key *)
| Inherited             (* truthy, but without [players], [gameStarted] *)
| Absent.               (* [undefined] *)

Fixpoint ownRoom (rooms : list (string * Room)) (roomId : string)
    : option Room :=
  match rooms with
  | [] => None
  | (k, room) :: rest =>
    if bool_decide (k = roomId) then Some room else ownRoom rest roomId
  end.

(** [gameRooms[roomId]] *)
Definition getRoom (rooms : list (string * Room)) (roomId : string) : Found :=
  match ownRoom rooms roomId with
  | Some room => Own room
  | None => if bool_decide (roomId ∈ inheritedKeys) then Inherited else Absent
  end.

(** [gameRooms[roomId] = room]: an existing key keeps its place. *)
Fixpoint putRoom (rooms : list (string * Room)) (roomId : string)
    (room : Room) : list (string * Room) :=
  match rooms with
  | [] => [(roomId, room)]
  | (k, old) :: rest =>
    if bool_decide (k = roomId) then (k, room) :: rest
    else (k, old) :: putRoom rest roomId room
  end.

(** [delete gameRooms[roomId]] *)
Definition deleteRoom (rooms : list (string * Room)) (roomId : string)
    : list (string * Room) :=
  filter (fun kv => kv.1 ≠ roomId) rooms.

(** A key that is a canonical array index is enumerated before the other
    keys, in ascending numeric order. *)
Definition digit (a : Ascii.ascii) : option N :=
  let n := Ascii.N_of_ascii a in
  if ((48 <=? n) && (n <=? 57))%N then Some (n - 48)%N else None.

Fixpoint digits (s : string) (acc : N) : option N :=
  match s with
  | EmptyString => Some acc
  | String a rest =>
    match digit a with
    | Some d => digits rest (acc * 10 + d)%N
    | None => None
    end
  end.

Definition arrayIndex (s : string) : option N :=
  match s with
  | EmptyString => None
  | String a rest =>
    if bool_decide (a = "0"%char) && negb (bool_decide (rest = EmptyString))
    then None
    else match digits s 0 with
         | Some n => if (n <? 2 ^ 32 - 1)%N then Some n else None
         | None => None
         end
  end.

Fixpoint insertIndex (n : N) (k : string) (l : list (N * string))
    : list (N * string) :=
  match l with
  | [] => [(n, k)]
  | (m, k') :: rest =>
    if (n <? m)%N then (n, k) :: l else (m, k') :: insertIndex n k rest
  end.

(** [Object.keys(gameRooms)] *)
Definition objectKeys (rooms : list (string * Room)) : list string :=
  let ks := map fst rooms in
  let indexed :=
    foldl (fun acc k =>
             match arrayIndex k with
             | Some n => insertIndex n k acc
             | None => acc
             end) [] ks in
  map snd indexed ++ filter (fun k => arrayIndex k = None) ks.

(** *** Players of a room *)

(** [room.players.find(p => p.id === socket.id)] *)
Definition findPlayer (ps : list Player) (socketId : string) : option Player :=
  List.find (fun p => bool_decide (player_id p = socketId)) ps.

(** An assignment through the object returned by [find]: the first
    player with this id is the one that changes. *)
Fixpoint updatePlayer (ps : list Player) (socketId : string)
    (f : Player -> Player) : list Player :=
  match ps with
  | [] => []
  | p :: rest =>
    if bool_decide (player_id p = socketId) then f p :: rest
    else p :: updatePlayer rest socketId f
  end.

Definition setReady (b : bool) (p : Player) : Player :=
  mkPlayer (player_id p) (player_name p) b (queens p) (marks p).
Definition setQueens (qs : list Cell) (p : Player) : Player :=
  mkPlayer (player_id p) (player_name p) (ready p) qs (marks p).
Definition setMarks (ms : list Cell) (p : Player) : Player :=
  mkPlayer (player_id p) (player_name p) (ready p) (queens p) ms.

(** [p.ready = false; p.queens = []; p.marks = []] *)
Definition resetPlayer (p : Player) : Player :=
  mkPlayer (player_id p) (player_name p) false [] [].

Definition newPlayer (socketId playerName : string) : Player :=
  mkPlayer socketId playerName false [] [].

Definition setRooms (st : State) (rooms : list (string * Room)) : State :=
  mkState rooms (timers st) (rng st).

(** *** generateRoomId *)

Definition chars : string :=
  "ABCDEFGHIJKLMNOPQRSTUVWXYZabcdefghijklmnopqrstuvwxyz0123456789".

Definition charAt (s : string) (k : nat) : string :=
  match String.get k s with
  | Some a => String a EmptyString
  | None => EmptyString
  end.

Fixpoint generateRoomIdLoop (tape : Tape) (n : nat) (acc : string) (i : nat)
    : string * nat :=
  match n with
  | O => (acc, i)
  | S n' =>
    let '(k, i) := randomInt tape (String.length chars) i in
    generateRoomIdLoop tape n' (String.append acc (charAt chars k)) i
  end.

Definition generateRoomId (tape : Tape) (i : nat) : string * nat :=
  generateRoomIdLoop tape 6 EmptyString i.

(** *** Handlers

    A handler maps the state to the next state and the events it emits,
    in order.  [sock] is [socket.id] of the connection the event came in
    on. *)

Definition Handler : Type := State -> result (State * list Emit).

Definition withRoom (room : Room) (ps : list Player) (started : bool)
    (b : option Board) : Room :=
  mkRoom (room_id room) ps started b.

Definition createGame (tape : Tape) (sock playerName : string) : Handler :=
  fun st =>
  let '(roomId, i) := generateRoomId tape (rng st) in
  let room := mkRoom roomId [newPlayer sock playerName] false None in
  Ret (mkState (putRoom (gameRooms st) roomId room) (timers st) i,
       [(ToSocket sock, gameCreated roomId sock playerName)]).

Definition joinGame (sock roomId playerName : string) : Handler :=
  fun st =>
  match getRoom (gameRooms st) roomId with
  | Absent => Ret (st, [(ToSocket sock, error "Game room not found")])
  | Inherited => TypeError
  | Own room =>
    if (2 <=? length (players room))%nat then
      Ret (st, [(ToSocket sock, error "Game room is full")])
    else
      let ps := players room ++ [newPlayer sock playerName] in
      let room := withRoom room ps (gameStarted room) (board room) in
      Ret (setRooms st (putRoom (gameRooms st) roomId room),
           [(ToSocket sock,
             gameJoined roomId sock playerName (List.hd_error ps));
            (ToOthers roomId sock, playerJoined sock playerName)])
  end.

Definition playerReady (tape : Tape) (fuel : nat) (sock roomId : string)
    (isReady : bool) : Handler :=
  fun st =>
  match getRoom (gameRooms st) roomId with
  | Absent => Ret (st, [(ToSocket sock, error "Game room not found")])
  | Inherited => TypeError
  | Own room =>
    match findPlayer (players room) sock with
    | None => Ret (st, [])
    | Some _ =>
      let ps := updatePlayer (players room) sock (setReady isReady) in
      let changed := [(ToRoom roomId, playerReadyChanged sock isReady)] in
      let allReady := (length ps =? 2)%nat && forallb ready ps in
      if allReady && negb (gameStarted room) then
        let* (b, i) := generatePuzzleBoard tape fuel (rng st) in
        let room := withRoom room ps true (Some b) in
        Ret (mkState (putRoom (gameRooms st) roomId room)
                     (timers st ++ [(roomId, b)]) i,
             changed ++ [(ToRoom roomId, gameCountdown)])
      else
        let room := withRoom room ps (gameStarted room) (board room) in
        Ret (setRooms st (putRoom (gameRooms st) roomId room), changed)
    end
  end.

(** The callback of [setTimeout]: the oldest pending one runs. *)
Definition timerFires : Handler :=
  fun st =>
  match timers st with
  | [] => Ret (st, [])
  | (roomId, b) :: rest =>
    Ret (mkState (gameRooms st) rest (rng st),
         [(ToRoom roomId, gameStart b)])
  end.

Definition placeQueen (sock roomId : string) (r c : Z) : Handler :=
  fun st =>
  let notStarted := Ret (st, [(ToSocket sock, error "Game not started")]) in
  match getRoom (gameRooms st) roomId with
  | Own room =>
    if negb (gameStarted room) then notStarted
    else
      match findPlayer (players room) sock with
      | None => Ret (st, [(ToSocket sock, error "Player not found")])
      | Some player =>
        match board room with
        | None => TypeError
        | Some b =>
          let* validation := validateQueenPlacement b r c (queens player) in
          match validation with
          | Invalid message => Ret (st, [(ToSocket sock, invalidMove message)])
          | Valid =>
            let qs := queens player ++ [mkCell r c] in
            let ps := updatePlayer (players room) sock (setQueens qs) in
            let placed := [(ToRoom roomId, queenPlaced sock r c)] in
            if (length qs =? 8)%nat then
              let room := withRoom room (map resetPlayer ps) false (board room) in
              Ret (setRooms st (putRoom (gameRooms st) roomId room),
                   placed ++ [(ToRoom roomId,
                               gameWon sock (player_name player))])
            else
              let room := withRoom room ps (gameStarted room) (board room) in
              Ret (setRooms st (putRoom (gameRooms st) roomId room), placed)
          end
        end
      end
  | Inherited | Absent => notStarted
  end.

Definition sameCell (r c : Z) (m : Cell) : bool :=
  (row m =? r) && (col m =? c).

Definition markCell (sock roomId : string) (r c : Z) : Handler :=
  fun st =>
  let notStarted := Ret (st, [(ToSocket sock, error "Game not started")]) in
  match getRoom (gameRooms st) roomId with
  | Own room =>
    if negb (gameStarted room) then notStarted
    else
      match findPlayer (players room) sock with
      | None => Ret (st, [(ToSocket sock, error "Player not found")])
      | Some player =>
        if existsb (sameCell r c) (queens player) then
          Ret (st, [(ToSocket sock, invalidMove "Cell already has a queen")])
        else if existsb (sameCell r c) (marks player) then
          let ms := List.filter (fun m => negb (sameCell r c m)) (marks player) in
          let ps := updatePlayer (players room) sock (setMarks ms) in
          let room := withRoom room ps (gameStarted room) (board room) in
          Ret (setRooms st (putRoom (gameRooms st) roomId room),
               [(ToRoom roomId, cellUnmarked sock r c)])
        else
          let ms := marks player ++ [mkCell r c] in
          let ps := updatePlayer (players room) sock (setMarks ms) in
          let room := withRoom room ps (gameStarted room) (board room) in
          Ret (setRooms st (putRoom (gameRooms st) roomId room),
               [(ToRoom roomId, cellMarked sock r c)])
      end
  | Inherited | Absent => notStarted
  end.

(** The reset shared by [restartGame] and [newPuzzle]. *)
Definition resetRoom (room : Room) : Room :=
  withRoom room (map resetPlayer (players room)) false None.

Definition resetWith (notice : Message) (sock roomId : string) : Handler :=
  fun st =>
  match getRoom (gameRooms st) roomId with
  | Absent => Ret (st, [(ToSocket sock, error "Game room not found")])
  | Inherited => TypeError
  | Own room =>
    Ret (setRooms st (putRoom (gameRooms st) roomId (resetRoom room)),
         [(ToRoom roomId, notice)])
  end.

Definition restartGame : string -> string -> Handler := resetWith gameRestarted.
Definition newPuzzle : string -> string -> Handler := resetWith newPuzzleRequested.

(** [room.players.findIndex(p => p.id === socket.id)] *)
Fixpoint findIndex (ps : list Player) (socketId : string) : option nat :=
  match ps with
  | [] => None
  | p :: rest =>
    if bool_decide (player_id p = socketId) then Some O
    else S <$> findIndex rest socketId
  end.

(** The body of the [forEach] over [Object.keys(gameRooms)]. *)
Definition leaveRoom (sock : string)
    (acc : list (string * Room) * list Emit) (roomId : string)
    : list (string * Room) * list Emit :=
  let '(rooms, out) := acc in
  match ownRoom rooms roomId with
  | None => acc
  | Some room =>
    match findIndex (players room) sock with
    | None => acc
    | Some playerIndex =>
      let playerName :=
        from_option player_name EmptyString (players room !! playerIndex) in
      let ps := delete playerIndex (players room) in
      let out := out ++ [(ToRoom roomId, playerDisconnected sock playerName)] in
      if (length ps =? 0)%nat then (deleteRoom rooms roomId, out)
      else
        (putRoom rooms roomId
                 (withRoom room ps (gameStarted room) (board room)), out)
    end
  end.

Definition disconnect (sock : string) : Handler :=
  fun st =>
  let '(rooms, out) :=
    foldl (leaveRoom sock) (gameRooms st, []) (objectKeys (gameRooms st)) in
  Ret (setRooms st rooms, out).

(** *** The event loop

    The events a client can send, with [TimerFires] for a [setTimeout]
    callback.  [r] and [c] are the [row] and [col] of the payload, taken
    to be integers, as the client's board sends them; the handlers do not
    check this, and payloads of another JSON type are not modelled. *)

Inductive Action : Type :=
| CreateGame (sock playerName : string)
| JoinGame (sock roomId playerName : string)
| PlayerReady (sock roomId : string) (isReady : bool)
| PlaceQueen (sock roomId : string) (r c : Z)
| MarkCell (sock roomId : string) (r c : Z)
| RestartGame (sock roomId : string)
| NewPuzzle (sock roomId : string)
| Disconnect (sock : string)
| TimerFires.

Definition step (tape : Tape) (fuel : nat) (a : Action) : Handler :=
  match a with
  | CreateGame sock playerName => createGame tape sock playerName
  | JoinGame sock roomId playerName => joinGame sock roomId playerName
  | PlayerReady sock roomId isReady => playerReady tape fuel sock roomId isReady
  | PlaceQueen sock roomId r c => placeQueen sock roomId r c
  | MarkCell sock roomId r c => markCell sock roomId r c
  | RestartGame sock roomId => restartGame sock roomId
  | NewPuzzle sock roomId => newPuzzle sock roomId
  | Disconnect sock => disconnect sock
  | TimerFires => timerFires
  end.

(** Actions are handled one at a time, each to completion. *)
Fixpoint run (tape : Tape) (fuel : nat) (acts : list Action) (st : State)
    : result (State * list Emit) :=
  match acts with
  | [] => Ret (st, [])
  | a :: rest =>
    let* (st, out) := step tape fuel a st in
    let* (st, out') := run tape fuel rest st in
    Ret (st, out ++ out')
  end.

End Server.

(** ** Specification vocabulary *)

Module Spec.
Import GameLogic Server.

(** *** Grids *)

(** An 8 by 8 grid. *)
Definition wfGrid (g : Grid) : Prop :=
  length g = 8%nat ∧ Forall (fun line => length line = 8%nat) g.

(** The region id under a cell. *)
Definition regionOf (g : Grid) (x : Cell) : value := getCell g (row x) (col x).

Definition onBoard (x : Cell) : Prop :=
  0 <= row x < BOARD_SIZE ∧ 0 <= col x < BOARD_SIZE.

(** *** Marker placements *)

(** [|Δrow| = |Δcol|], at any distance. *)
Definition onDiagonal (a b : Cell) : Prop :=
  Z.abs (row a - row b) = Z.abs (col a - col b).

(** A full assignment: eight cells, one per row 0..7 in row order, with
    distinct columns, distinct region ids and no shared diagonal. *)
Record Assignment (g : Grid) (sol : list Cell) : Prop := mkAssignment {
  one_per_row : row <$> sol = seqZ 0 BOARD_SIZE;
  cols_on_board : Forall (fun x => 0 <= col x < BOARD_SIZE) sol;
  cols_distinct : NoDup (col <$> sol);
  regions_distinct : NoDup (regionOf g <$> sol);
  off_diagonal : ∀ a b, a ∈ sol → b ∈ sol → a ≠ b → ¬ onDiagonal a b
}.

(** The order in which the search meets column sequences: ascending
    columns, earlier rows first. *)
Fixpoint lexLe (xs ys : list Z) : Prop :=
  match xs, ys with
  | [], _ => True
  | _ :: _, [] => False
  | x :: xs', y :: ys' => x < y ∨ (x = y ∧ lexLe xs' ys')
  end.

(** A cell that may follow the placement [qs]. *)
Definition safe (g : Grid) (qs : list Cell) (x : Cell) : Prop :=
  0 <= col x < BOARD_SIZE ∧
  (col x ∉ col <$> qs) ∧
  (regionOf g x ∉ regionOf g <$> qs) ∧
  ∀ q, q ∈ qs → ¬ onDiagonal q x.

(** Placements built row by row, as the search builds them. *)
Inductive Placement (g : Grid) : list Cell → Prop :=
| Placement_nil : Placement g []
| Placement_snoc qs x :
    Placement g qs → row x = Z.of_nat (length qs) → safe g qs x →
    Placement g (qs ++ [x]).

Definition Full (g : Grid) (sol : list Cell) : Prop :=
  Placement g sol ∧ length sol = 8%nat.

(** The same conditions, stated on the whole list. *)
Definition Consistent (g : Grid) (qs : list Cell) : Prop :=
  row <$> qs = seqZ 0 (Z.of_nat (length qs)) ∧
  Forall (fun x => 0 <= col x < BOARD_SIZE) qs ∧
  NoDup (col <$> qs) ∧
  NoDup (regionOf g <$> qs) ∧
  ∀ a b, a ∈ qs → b ∈ qs → a ≠ b → ¬ onDiagonal a b.

(** The solver state in which exactly the queens [qs] are placed. *)
Definition stateOf (g : Grid) (qs : list Cell) : SolverState :=
  mkSolver (regionOf g <$> qs) (row <$> qs) (col <$> qs) qs.

(** What a call of [placeQueens] on the placement [qs] returns: the
    first completion in search order, or [false] with the state as it
    was when there is none. *)
Definition SearchSpec (g : Grid) (qs : list Cell)
    (out : result (bool * SolverState)) : Prop :=
  (∃ rest, out = Ret (true, stateOf g (qs ++ rest)) ∧ Full g (qs ++ rest) ∧
           ∀ rest', Full g (qs ++ rest') → lexLe (col <$> rest) (col <$> rest'))
  ∨ (out = Ret (false, stateOf g qs) ∧ ∀ rest', ¬ Full g (qs ++ rest')).

(** Replaying cells through the validator in order, each against the
    cells accepted before it; [false] as soon as one is rejected. *)
Fixpoint replay (b : Board) (placed todo : list Cell) : result bool :=
  match todo with
  | [] => Ret true
  | x :: rest =>
    let* v := validateQueenPlacement b (row x) (col x) placed in
    match v with
    | Valid => replay b (placed ++ [x]) rest
    | Invalid _ => Ret false
    end
  end.

(** *** Regions *)

Definition inRegion (g : Grid) (regionId : Z) (x : Cell) : Prop :=
  onBoard x ∧ regionOf g x = VNum regionId.

(** Neighbours up, right, down or left. *)
Definition adjacent (a b : Cell) : Prop :=
  Z.abs (row a - row b) + Z.abs (col a - col b) = 1.

Definition linked (g : Grid) (regionId : Z) (a b : Cell) : Prop :=
  inRegion g regionId a ∧ inRegion g regionId b ∧ adjacent a b.

(** 4-connected: any two cells of the region are joined by a path of
    neighbouring cells of the region. *)
Definition connected (g : Grid) (regionId : Z) : Prop :=
  ∀ a b, inRegion g regionId a → inRegion g regionId b →
         rtc (linked g regionId) a b.

(** Number of cells of the grid that hold [regionId]. *)
Definition regionSize (g : Grid) (regionId : Z) : nat :=
  length (List.filter (strictEq (VNum regionId)) (concat g)).

(** The distinct entries of the grid. *)
Definition distinctIds (g : Grid) : list value := remove_dups (concat g).

(** The contract of the region generator. *)
Record RegionContract (g : Grid) : Prop := mkRegionContract {
  all_assigned : ∀ x, onBoard x →
                      ∃ id, 0 <= id < NUM_REGIONS ∧ regionOf g x = VNum id;
  eight_ids : length (distinctIds g) = 8%nat;
  three_cells : ∀ id, 0 <= id < NUM_REGIONS → (3 <= regionSize g id)%nat;
  four_connected : ∀ id, 0 <= id < NUM_REGIONS → connected g id
}.

(** *** Random tapes used below *)

Definition tapeOf (draws : list nat) : Tape := fun i => nth i draws 0%nat.

(** Every draw is 0. *)
Definition zeroTape : Tape := fun _ => 0%nat.

(** Draws that fill the grid at the first attempt with eight connected
    regions for which no assignment exists. *)
Definition unsolvableDraws : list nat :=
  [5; 1; 4; 0; 0; 0; 3; 4; 0; 0; 1; 1; 6; 7; 0; 1; 4; 1; 3; 4; 3; 0; 1; 4;
   0; 8; 0; 0; 0; 1; 0; 1; 1; 4; 3; 4; 0; 0; 1; 7; 6; 9; 0; 2; 0; 4; 4; 3;
   7; 1; 1; 0; 0; 0]%nat.

Definition unsolvableGrid : Grid :=
  map (map VNum)
    [[4; 4; 1; 1; 1; 1; 2; 2];
     [4; 4; 1; 1; 1; 2; 2; 2];
     [4; 4; 4; 4; 3; 2; 2; 2];
     [4; 0; 4; 3; 3; 3; 2; 2];
     [4; 0; 0; 5; 3; 3; 6; 6];
     [0; 0; 0; 5; 5; 6; 6; 6];
     [7; 0; 5; 5; 5; 6; 6; 6];
     [7; 7; 7; 5; 6; 6; 6; 6]].

(** Draws that fill the grid at the first attempt with a solvable
    partition. *)
Definition solvableDraws : list nat :=
  [2; 5; 5; 0; 2; 2; 0; 7; 0; 0; 3; 4; 6; 6; 6; 0; 2; 0; 3; 2; 3; 0; 0; 7;
   1; 3; 0; 1; 5; 4; 5; 0; 1; 0; 0; 1; 7; 8; 0; 1; 1; 2; 1; 1; 1; 1; 5; 0;
   3; 0; 2; 1]%nat.

Definition solvableGrid : Grid :=
  map (map VNum)
    [[1; 1; 1; 6; 6; 6; 6; 6];
     [1; 1; 1; 1; 6; 0; 6; 6];
     [1; 1; 3; 3; 0; 0; 0; 6];
     [1; 3; 3; 3; 0; 0; 0; 6];
     [7; 7; 3; 5; 5; 0; 2; 6];
     [7; 7; 7; 5; 5; 5; 2; 2];
     [7; 4; 4; 5; 5; 2; 2; 2];
     [4; 4; 4; 4; 5; 2; 2; 2]].

Definition solvableSolution : list Cell :=
  [mkCell 0 5; mkCell 1 2; mkCell 2 6; mkCell 3 3;
   mkCell 4 0; mkCell 5 7; mkCell 6 1; mkCell 7 4].

Definition solvableBoard : Board := mkBoard solvableGrid (Some solvableSolution).

(** Draws on which region 1 is first seeded in the pocket (0,0) left by
    region 0 and comes out with a single cell. *)
Definition retryDraws : list nat :=
  [1; 1; 2; 0; 0; 0; 0; 0; 5; 7; 5; 0; 1; 0; 6; 1; 9; 0; 0; 1; 4; 3; 0; 4;
   7; 0; 0; 3; 1; 7; 5; 7; 0; 1; 0; 0; 0; 1; 2; 1; 6; 0; 0; 2; 1; 7; 1; 0;
   1; 4; 3; 7; 0; 1; 2; 3; 0]%nat.

Definition nulls : list value := replicate 8 VNull.

(** The grid after region 0 was grown from (1,1) on [retryDraws]. *)
Definition gridBeforeRetry : Grid :=
  [[VNull; VNum 0; VNull; VNull; VNull; VNull; VNull; VNull];
   [VNum 0; VNum 0; VNum 0; VNull; VNull; VNull; VNull; VNull];
   [VNull; VNum 0; VNull; VNull; VNull; VNull; VNull; VNull];
   nulls; nulls; nulls; nulls; nulls].

(** The grid after the failed attempt for region 1 at (0,0). *)
Definition gridAfterRetry : Grid :=
  [[VNum 1; VNull; VNull; VNull; VNull; VNull; VNull; VNull];
   nulls; nulls; nulls; nulls; nulls; nulls; nulls].

Definition retryGrid : Grid :=
  map (map VNum)
    [[1; 5; 3; 3; 3; 3; 3; 6];
     [5; 5; 5; 3; 3; 3; 3; 6];
     [5; 5; 5; 7; 7; 3; 6; 6];
     [5; 5; 7; 7; 7; 7; 7; 1];
     [2; 2; 2; 7; 7; 4; 1; 1];
     [2; 2; 2; 7; 4; 4; 1; 1];
     [2; 2; 2; 4; 4; 4; 1; 1];
     [2; 2; 2; 4; 4; 4; 4; 1]].

(** *** Rooms *)

(** The flags of the first player with id [sock] in room [roomId]. *)
Definition marksOf (st : State) (roomId sock : string) : option (list Cell) :=
  room ← ownRoom (gameRooms st) roomId;
  marks <$> findPlayer (players room) sock.

(** Six draws for the room id [ABCa09], then [solvableDraws]. *)
Definition sessionDraws : list nat := ([0; 1; 2; 26; 52; 61] ++ solvableDraws)%nat.

Definition roomCode : string := "ABCa09".

(** Alice creates a room, Bob joins, both ready up. *)
Definition readyUp : list Action :=
  [CreateGame "s1" "Alice"; JoinGame "s2" roomCode "Bob";
   PlayerReady "s1" roomCode true; PlayerReady "s2" roomCode true].

(** Alice places the board's own solution. *)
Definition aliceSolves : list Action :=
  map (fun x => PlaceQueen "s1" roomCode (row x) (col x)) solvableSolution.

(** The flag list after one [markCell] on the cell. *)
Definition toggled (r c : Z) (ms : list Cell) : list Cell :=
  if existsb (sameCell r c) ms
  then List.filter (fun m => negb (sameCell r c m)) ms
  else ms ++ [mkCell r c].

Definition stateOfRun (r : result (State * list Emit)) : State :=
  match r with
  | Ret (st, _) => st
  | _ => initState
  end.

(** The state once both have readied up: the room is started and the
    delivery of [gameStart] is pending. *)
Definition readyState : State :=
  Eval vm_compute in stateOfRun (run (tapeOf sessionDraws) 30 readyUp initState).

(** The state when Alice has created the room and is alone in it. *)
Definition loneState : State :=
  Eval vm_compute in
    stateOfRun (run (tapeOf sessionDraws) 30 (take 1 readyUp) initState).

(** The state when only Alice has readied up. *)
Definition halfReadyState : State :=
  Eval vm_compute in
    stateOfRun (run (tapeOf sessionDraws) 30 (take 3 readyUp) initState).

(** ... and after Alice then asked for a restart. *)
Definition restartedState : State :=
  Eval vm_compute in
    stateOfRun (run zeroTape 0 [RestartGame "s1" roomCode] readyState).

(** Number of timer callbacks among the actions. *)
Fixpoint firings (acts : list Action) : nat :=
  match acts with
  | [] => O
  | TimerFires :: rest => S (firings rest)
  | _ :: rest => firings rest
  end.

Definition unsolvableBoard : Board := mkBoard unsolvableGrid None.

(** The draws of a session in which a second room, [BCDb18], is created
    and started while the first delivery is still pending. *)
Definition twoRoomsDraws : list nat :=
  (sessionDraws ++ [1; 2; 3; 27; 53; 60] ++ unsolvableDraws)%nat.

Definition secondCode : string := "BCDb18".

Definition secondReadyUp : list Action :=
  [CreateGame "s3" "Carol"; JoinGame "s4" secondCode "Dave";
   PlayerReady "s3" secondCode true; PlayerReady "s4" secondCode true].

(** Both rooms are started and both deliveries are pending. *)
Definition twoPendingState : State :=
  Eval vm_compute in
    stateOfRun (run (tapeOf twoRoomsDraws) 30 (readyUp ++ secondReadyUp) initState).

(** *** Vocabulary of the further properties *)

(** Two markers that the rules forbid together. *)
Definition conflicts (g : Grid) (q x : Cell) : Prop :=
  row q = row x ∨ col q = col x ∨ regionOf g q = regionOf g x ∨ onDiagonal q x.

(** Markers in existing rows, no two of them in conflict. *)
Definition Peaceful (g : Grid) (qs : list Cell) : Prop :=
  Forall (fun q => 0 <= row q < BOARD_SIZE) qs ∧
  ∀ i j a b, qs !! i = Some a → qs !! j = Some b → i ≠ j → ¬ conflicts g a b.

(** A grid entry the generator may write. *)
Definition idOrNull (v : value) : Prop :=
  v = VNull ∨ ∃ id, 0 <= id < NUM_REGIONS ∧ v = VNum id.

Definition entriesOk (g : Grid) : Prop := Forall (Forall idOrNull) g.

(** [g'] differs from [g] only in cells that were unassigned and now hold
    [regionId]. *)
Definition grownFrom (regionId : Z) (g g' : Grid) : Prop :=
  wfGrid g' ∧
  ∀ r c, getCell g' r c = getCell g r c ∨
         (getCell g' r c = VNum regionId ∧ getCell g r c = VNull).

(** The body of the inner reset loop of [generateRegions]. *)
Definition resetOne (regionId : Z) (g : Grid) (r c : Z) : Grid :=
  if strictEq (getCell g r c) (VNum regionId) then setCell g r c VNull else g.

(** What every handler keeps true of a player of a room ... *)
Definition PlayerOk (room : Room) (p : Player) : Prop :=
  (length (queens p) < 8)%nat ∧
  (gameStarted room = false → queens p = []) ∧
  (∀ b, board room = Some b → Peaceful (regions b) (queens p)) ∧
  NoDup (marks p).

(** ... of a room ... *)
Definition RoomOk (room : Room) : Prop :=
  (1 <= length (players room) <= 2)%nat ∧
  (gameStarted room = true → ∃ b, board room = Some b ∧ wfGrid (regions b)) ∧
  Forall (PlayerOk room) (players room).

(** ... and of the process state. *)
Definition StateOk (st : State) : Prop :=
  Forall (fun kv => RoomOk kv.2) (gameRooms st).

End Spec.

(** ** Facts about the solver *)

Module SolverFacts.
Import GameLogic Spec.

Section SetFacts.
Context {A : Type} `{EqDecision A}.
Lemma setHas_true (x : A) s : setHas x s = true ↔ x ∈ s.
Proof. unfold setHas. apply bool_decide_eq_true. Qed.
Lemma setHas_false (x : A) s : setHas x s = false ↔ x ∉ s.
Proof. unfold setHas. apply bool_decide_eq_false. Qed.
Lemma setAdd_fresh (x : A) s : x ∉ s → setAdd x s = s ++ [x].
Proof. intros H. unfold setAdd. by rewrite (proj2 (setHas_false x s) H). Qed.
Lemma setDelete_absent (x : A) s : x ∉ s → setDelete x s = s.
Proof.
  unfold setDelete. induction s as [|y s IH]; intros H; [done|].
  apply not_elem_of_cons in H as [Hne Hs].
  rewrite filter_cons_True by congruence. by rewrite IH.
Qed.
Lemma setDelete_last (x : A) s : x ∉ s → setDelete x (s ++ [x]) = s.
Proof.
  intros H. unfold setDelete. rewrite filter_app.
  fold (setDelete x s). rewrite setDelete_absent by done.
  rewrite filter_cons_False by naive_solver. simpl. by rewrite app_nil_r.
Qed.
End SetFacts.

Lemma Placement_snoc_inv g qs x :
  Placement g (qs ++ [x]) →
  Placement g qs ∧ row x = Z.of_nat (length qs) ∧ safe g qs x.
Proof.
  intros H. inversion H as [Hnil | qs' x' Hqs Hrow Hsafe Heq].
  - by destruct qs.
  - apply app_inj_tail in Heq as [-> ->]. done.
Qed.

Lemma Placement_prefix g l1 l2 : Placement g (l1 ++ l2) → Placement g l1.
Proof.
  induction l2 as [|x l2 IH] using rev_ind.
  - by rewrite app_nil_r.
  - rewrite app_assoc. intros H. apply Placement_snoc_inv in H as [H _]. auto.
Qed.

Lemma Placement_rows g qs :
  Placement g qs → ∀ i x, qs !! i = Some x → row x = Z.of_nat i.
Proof.
  induction 1 as [|qs x Hqs IH Hrow Hsafe]; intros i y Hi; [done|].
  apply lookup_app_Some in Hi as [Hi | [Hlen Hi]]; [by eauto|].
  apply list_lookup_singleton_Some in Hi as [Hi ->]. lia.
Qed.

Lemma Placement_row_bound g qs x :
  Placement g qs → x ∈ qs → 0 <= row x < Z.of_nat (length qs).
Proof.
  intros Hp [i Hi]%list_elem_of_lookup.
  rewrite (Placement_rows g qs Hp i x Hi).
  apply lookup_lt_Some in Hi. lia.
Qed.

Lemma cellAt_wf g r c :
  wfGrid g → 0 <= r < 8 → cellAt g r c = Ret (getCell g r c).
Proof.
  intros [Hlen _] Hr. unfold getCell, cellAt, rowAt.
  destruct (0 <=? r) eqn:E; [|lia].
  destruct (g !! Z.to_nat r) eqn:El; [done|].
  apply lookup_ge_None in El. lia.
Qed.

Lemma isUnderAttack_false r c qs :
  isUnderAttack r c qs = false ↔ ∀ q, q ∈ qs → ¬ onDiagonal q (mkCell r c).
Proof.
  unfold isUnderAttack, onDiagonal. simpl. split.
  - intros H q Hq Hd. 
    assert (existsb (λ queen, Z.abs (row queen - r) =? Z.abs (col queen - c)) qs = true); [|congruence].
    apply existsb_exists. exists q. split; [by apply list_elem_of_In|]. by apply Z.eqb_eq.
  - intros H. apply not_true_is_false. intros [q [Hq Hd]]%existsb_exists.
    apply (H q); [by apply list_elem_of_In|]. by apply Z.eqb_eq.
Qed.

Lemma snoc_app (qs : list Cell) x rest : qs ++ x :: rest = (qs ++ [x]) ++ rest.
Proof. by rewrite <- app_assoc. Qed.

Lemma Full_extend_inv g qs x rest :
  Full g (qs ++ x :: rest) →
  Placement g (qs ++ [x]) ∧ row x = Z.of_nat (length qs) ∧ safe g qs x.
Proof.
  intros [Hp _]. rewrite (snoc_app qs) in Hp.
  apply Placement_prefix in Hp. split; [done|].
  by apply Placement_snoc_inv in Hp as (_ & ? & ?).
Qed.

Lemma addQueen_stateOf g qs x :
  Placement g qs → row x = Z.of_nat (length qs) → safe g qs x →
  addQueen (row x) (col x) (regionOf g x) (stateOf g qs) = stateOf g (qs ++ [x]).
Proof.
  intros Hp Hrow (_ & Hc & Hr & _). unfold addQueen, stateOf. simpl.
  rewrite !setAdd_fresh, !fmap_app; try done.
  - by destruct x.
  - intros (q & Hq & Hin)%list_elem_of_fmap.
    pose proof (Placement_row_bound g qs q Hp Hin). lia.
Qed.

Lemma removeQueen_stateOf g qs x :
  Placement g qs → row x = Z.of_nat (length qs) → safe g qs x →
  removeQueen (row x) (col x) (regionOf g x) (stateOf g (qs ++ [x])) = stateOf g qs.
Proof.
  intros Hp Hrow (_ & Hc & Hr & _). unfold removeQueen, stateOf. simpl.
  rewrite !fmap_app. simpl. rewrite !setDelete_last, removelast_last; try done.
  intros (q & Hq & Hin)%list_elem_of_fmap.
  pose proof (Placement_row_bound g qs q Hp Hin). lia.
Qed.

Section Search.
Variable g : Grid.
Hypothesis Hg : wfGrid g.

Lemma tryColumns_spec qs next :
  Placement g qs → (length qs < 8)%nat →
  (∀ x, Placement g (qs ++ [x]) →
        SearchSpec g (qs ++ [x]) (next (stateOf g (qs ++ [x])))) →
  ∀ k c, 0 <= c → c + Z.of_nat k = 8 →
    (∀ x rest', col x < c → ¬ Full g (qs ++ x :: rest')) →
    SearchSpec g qs
      (tryColumns next g (Z.of_nat (length qs)) (seqZ c (Z.of_nat k))
                  (stateOf g qs)).
Proof.
  intros Hp Hlen Hnext. set (r := Z.of_nat (length qs)).
  induction k as [|k IH]; intros c Hc Hck Hbelow.
  - rewrite seqZ_nil by lia. simpl. right. split; [done|].
    intros [|x rest'] HF.
    + destruct HF as [_ HF]. rewrite app_nil_r in HF. lia.
    + pose proof (Full_extend_inv _ _ _ _ HF) as (_ & _ & Hs & _).
      apply (Hbelow x rest'); [|done]. unfold BOARD_SIZE in Hs. lia.
  - rewrite seqZ_cons by lia.
    replace (Z.pred (Z.of_nat (S k))) with (Z.of_nat k) by lia.
    assert (Hstep : ¬ (∃ rest', Full g (qs ++ mkCell r c :: rest')) →
      SearchSpec g qs
        (tryColumns next g r (seqZ (Z.succ c) (Z.of_nat k)) (stateOf g qs))).
    { intros Hno. apply IH; [lia|lia|]. intros x rest' Hx HF.
      destruct (decide (col x < c)) as [Hlt|Hge]; [by eapply Hbelow|].
      pose proof (Full_extend_inv _ _ _ _ HF) as (_ & Hrow & _).
      apply Hno. exists rest'. destruct x as [xr xc]; simpl in *.
      replace xc with c in HF by lia. by rewrite Hrow in HF. }
    simpl. rewrite cellAt_wf by (done || unfold r; lia). simpl.
    set (x := mkCell r c). change (getCell g r c) with (regionOf g x).
    destruct (setHas c (col <$> qs)) eqn:Ecol; simpl.
    { apply Hstep. intros [rest' HF].
      apply Full_extend_inv in HF as (_ & _ & _ & Hs & _).
      by apply setHas_true in Ecol. }
    destruct (setHas (regionOf g x) (regionOf g <$> qs)) eqn:Ereg; simpl.
    { apply Hstep. intros [rest' HF].
      apply Full_extend_inv in HF as (_ & _ & _ & _ & Hs & _).
      by apply setHas_true in Ereg. }
    destruct (isUnderAttack r c qs) eqn:Eatt.
    { apply Hstep. intros [rest' HF].
      apply Full_extend_inv in HF as (_ & _ & _ & _ & _ & Hs).
      apply not_false_iff_true in Eatt. apply Eatt.
      by apply isUnderAttack_false. }
    apply setHas_false in Ecol, Ereg.
    assert (Hsafe : safe g qs x).
    { repeat split; try done; try (unfold BOARD_SIZE; simpl; lia).
      by apply isUnderAttack_false. }
    assert (Hpx : Placement g (qs ++ [x])) by (by constructor).
    change (addQueen r c (regionOf g x) (stateOf g qs))
      with (addQueen (row x) (col x) (regionOf g x) (stateOf g qs)).
    rewrite addQueen_stateOf by done.
    destruct (Hnext x Hpx) as [(rest & -> & HF & Hmin) | [-> Hnone]]; simpl.
    + left. exists (x :: rest). rewrite (snoc_app qs x rest).
      split; [done|]. split; [done|]. intros [|y rest''] HF'.
      * destruct HF' as [_ HF']. rewrite app_nil_r in HF'. lia.
      * simpl. destruct (decide (col y < c)) as [Hlt|Hge].
        { by destruct (Hbelow y rest'' Hlt). }
        destruct (decide (c < col y)) as [Hgt|Hle]; [by left|]. right.
        split; [lia|]. apply Hmin.
        pose proof (Full_extend_inv _ _ _ _ HF') as (_ & Hrow & _).
        rewrite (snoc_app qs) in HF'.
        destruct y as [yr yc]; simpl in *. subst x.
        replace c with yc by lia. unfold r. by rewrite <- Hrow.
    + change (removeQueen r c (regionOf g x) (stateOf g (qs ++ [x])))
        with (removeQueen (row x) (col x) (regionOf g x) (stateOf g (qs ++ [x]))).
      rewrite removeQueen_stateOf by done.
      apply Hstep. intros [rest' HF]. apply (Hnone rest').
      by rewrite (snoc_app qs) in HF.
Qed.

Lemma placeQueens_spec fuel :
  ∀ qs, Placement g qs → (length qs <= 8)%nat → (8 - length qs < fuel)%nat →
    SearchSpec g qs (placeQueens fuel g (Z.of_nat (length qs)) (stateOf g qs)).
Proof.
  induction fuel as [|fuel IH]; intros qs Hp Hlen Hfuel; [lia|].
  cbn [placeQueens]. unfold BOARD_SIZE at 1.
  destruct (8 <=? Z.of_nat (length qs)) eqn:E.
  - apply Z.leb_le in E. left. exists []. rewrite app_nil_r.
    split; [done|]. split; [split; [done|lia]|done].
  - apply Z.leb_gt in E.
    assert (Hrow : setHas (Z.of_nat (length qs)) (row <$> qs) = false).
    { apply setHas_false. intros (q & Hq & Hin)%list_elem_of_fmap.
      pose proof (Placement_row_bound g qs q Hp Hin). lia. }
    cbn [usedRows stateOf]. rewrite Hrow.
    apply (tryColumns_spec qs _ Hp) with (k := 8%nat) (c := 0); try lia.
    + intros x Hpx.
      replace (Z.of_nat (length qs) + 1) with (Z.of_nat (length (qs ++ [x])))
        by (rewrite length_app; simpl; lia).
      apply IH; [done|rewrite length_app; simpl; lia..].
    + intros x rest' Hx HF.
      apply Full_extend_inv in HF as (_ & _ & Hs & _). lia.
Qed.
End Search.

Lemma onDiagonal_sym a b : onDiagonal a b → onDiagonal b a.
Proof. unfold onDiagonal. lia. Qed.

Lemma NoDup_snoc {A} (l : list A) x : NoDup (l ++ [x]) ↔ NoDup l ∧ x ∉ l.
Proof.
  rewrite NoDup_app. split.
  - intros (Hl & Hx & _). split; [done|]. intros Hin. apply (Hx x Hin). by left.
  - intros [Hl Hx]. split; [done|]. split; [|apply NoDup_singleton].
    intros y Hy ->%list_elem_of_singleton. done.
Qed.

Lemma Placement_Consistent g qs : Placement g qs ↔ Consistent g qs.
Proof.
  split.
  - induction 1 as [|qs x Hqs (IHr & IHc & IHnc & IHnr & IHd) Hrow
                       (Hcol & Hc & Hr & Hd)].
    + repeat split; try constructor. intros a b Ha. by apply elem_of_nil in Ha.
    + repeat split.
      * rewrite fmap_app, length_app, Nat.add_1_r, seqZ_S, IHr. simpl.
        by rewrite Hrow.
      * apply Forall_app. split; [done|]. by constructor.
      * rewrite fmap_app. by apply NoDup_snoc.
      * rewrite fmap_app. by apply NoDup_snoc.
      * intros a b [Ha | ->%list_elem_of_singleton]%elem_of_app
                   [Hb | ->%list_elem_of_singleton]%elem_of_app Hne; auto.
        intros Hab%onDiagonal_sym. by apply (Hd b).
  - induction qs as [|x qs IH] using rev_ind; [constructor|].
    intros (Hr & Hc & Hnc & Hnr & Hd).
    rewrite fmap_app, length_app, Nat.add_1_r, seqZ_S in Hr. simpl in Hr.
    apply app_inj_tail in Hr as [Hr Hx].
    apply Forall_app in Hc as [Hc Hcx]. apply Forall_inv in Hcx. simpl in Hcx.
    rewrite fmap_app in Hnc. rewrite fmap_app in Hnr.
    apply NoDup_snoc in Hnc as [Hnc Hxc]. apply NoDup_snoc in Hnr as [Hnr Hxr].
    constructor; [|done|].
    + apply IH. repeat split; try done.
      intros a b Ha Hb. apply Hd; apply elem_of_app; by left.
    + split; [exact Hcx|]. do 2 (split; [done|]).
      intros q Hq. apply Hd; [apply elem_of_app; by left|
                              apply elem_of_app; right; by left|].
      intros ->. assert (Hin : row x ∈ row <$> qs) by (by apply list_elem_of_fmap_2).
      rewrite Hr in Hin. apply elem_of_seqZ in Hin. lia.
Qed.

Lemma Assignment_Full g sol : Assignment g sol ↔ Full g sol.
Proof.
  unfold Full. rewrite Placement_Consistent. unfold Consistent. split.
  - intros [Hr Hc Hnc Hnr Hd].
    assert (Hlen : length sol = 8%nat).
    { rewrite <- (length_fmap row), Hr, length_seqZ. done. }
    rewrite Hlen. done.
  - intros [(Hr & Hc & Hnc & Hnr & Hd) Hlen]. rewrite Hlen in Hr. done.
Qed.

(** The search from the empty placement, in terms of placements. *)
Lemma findSolution_Full (g : Grid) :
  wfGrid g →
  ∃ r, findSolution g = Ret r ∧
       match r with
       | Some sol => Full g sol
       | None => ∀ sol, ¬ Full g sol
       end.
Proof.
  intros Hg. unfold findSolution.
  assert (Hspec : SearchSpec g [] (placeQueens 9 g 0 initSolver)).
  { apply (placeQueens_spec g Hg 9 [] (Placement_nil g)); simpl; lia. }
  destruct Hspec as [(rest & Hrun & HF & _) | [Hrun Hnone]];
    rewrite Hrun; cbn [bind app].
  - by exists (Some rest).
  - by exists None.
Qed.

(** C5. For every 8 by 8 regions grid [findSolution] returns; a result
    other than [null] is an assignment of eight cells, one per row 0..7,
    with pairwise distinct columns and region ids and no two cells on a
    common diagonal; it is the first such assignment in ascending column
    order, row by row; and the result is [null] only when the grid has no
    such assignment. *)
Theorem findSolution_correct (g : Grid) :
  wfGrid g →
  ∃ r, findSolution g = Ret r ∧
       match r with
       | Some sol =>
         Assignment g sol ∧
         ∀ sol', Assignment g sol' → lexLe (col <$> sol) (col <$> sol')
       | None => ∀ sol', ¬ Assignment g sol'
       end.
Proof.
  intros Hg. unfold findSolution.
  assert (Hspec : SearchSpec g [] (placeQueens 9 g 0 initSolver)).
  { apply (placeQueens_spec g Hg 9 [] (Placement_nil g)); simpl; lia. }
  destruct Hspec as [(rest & Hrun & HF & Hmin) | [Hrun Hnone]];
    rewrite Hrun; cbn [bind app].
  - exists (Some rest). split; [done|]. split.
    + by apply Assignment_Full.
    + intros sol' Hs. apply Hmin. by apply Assignment_Full.
  - exists None. split; [done|].
    intros sol' Hs. apply (Hnone sol'). by apply Assignment_Full.
Qed.

Lemma findSolution_correct_witness :
  wfGrid solvableGrid ∧
  ∃ r, findSolution solvableGrid = Ret r ∧
       match r with
       | Some sol =>
         Assignment solvableGrid sol ∧
         ∀ sol', Assignment solvableGrid sol' → lexLe (col <$> sol) (col <$> sol')
       | None => ∀ sol', ¬ Assignment solvableGrid sol'
       end.
Proof.
  assert (H : wfGrid solvableGrid) by (split; [reflexivity | repeat constructor]).
  split; [exact H | exact (findSolution_correct solvableGrid H)].
Defined.

End SolverFacts.

(** ** Facts about the generator *)

Module GeneratorFacts.
Import GameLogic Spec SolverFacts.

(** *** The grid keeps its shape *)
Lemma emptyGrid_wf : wfGrid emptyGrid.
Proof. split; [reflexivity | repeat constructor]. Qed.

Lemma setCell_wf g r c v : wfGrid g → wfGrid (setCell g r c v).
Proof.
  intros [Hl Hf]. unfold setCell, rowAt.
  destruct (0 <=? r); [|done].
  destruct (g !! Z.to_nat r) as [line|] eqn:E; [|done].
  split; [by rewrite length_insert|].
  apply Forall_insert; [done|]. rewrite length_insert.
  by apply (Forall_lookup_1 _ _ _ _ Hf E).
Qed.

Lemma scanDirections_wf dirs r c regionId targetSize :
  ∀ g n q g' n' q',
    scanDirections dirs r c regionId targetSize g n q = (g', n', q') →
    wfGrid g → wfGrid g'.
Proof.
  induction dirs as [|[dr dc] dirs IH]; intros g n q g' n' q' H Hg;
    cbn [scanDirections] in H.
  - by inversion H; subst.
  - destruct (_ && _) in H; [|by eapply IH].
    destruct (targetSize <=? n + 1) in H.
    + inversion H; subst. by apply setCell_wf.
    + eapply IH; [exact H|]. by apply setCell_wf.
Qed.

Lemma growLoop_wf tape fuel regionId targetSize :
  ∀ g n q i g' n' i',
    growLoop tape fuel regionId targetSize g n q i = Ret (g', n', i') →
    wfGrid g → wfGrid g'.
Proof.
  induction fuel as [|fuel IH]; intros g n q i g' n' i' H Hg; [done|].
  cbn [growLoop] in H. destruct (_ && _) in H.
  - destruct (randomInt tape (length q) i) as [k i1].
    destruct (scanDirections _ _ _ _ _ _ _ _) as [[g1 n1] q1] eqn:E.
    eapply IH; [exact H|]. by eapply scanDirections_wf.
  - by inversion H; subst.
Qed.

Lemma growRegion_wf tape fuel g r c regionId i g' n' i' :
  growRegion tape fuel g r c regionId i = Ret (g', n', i') →
  wfGrid g → wfGrid g'.
Proof.
  unfold growRegion. destruct (randomInt tape 10 i) as [t i1]. intros H Hg.
  eapply growLoop_wf; [exact H|]. by apply setCell_wf.
Qed.

Lemma foldl_invariant {A B} (P : A → Prop) (f : A → B → A) (l : list B) a :
  (∀ a b, P a → P (f a b)) → P a → P (foldl f a l).
Proof. intros Hf. revert a. induction l; simpl; auto. Qed.

Lemma resetCells_wf g regionId : wfGrid g → wfGrid (resetCells g regionId).
Proof.
  intros Hg. unfold resetCells.
  apply (foldl_invariant wfGrid); [|done]. intros g1 r Hg1.
  apply (foldl_invariant wfGrid); [|done]. intros g2 c Hg2.
  case_match; [by apply setCell_wf|done].
Qed.

Lemma regionStep_wf tape fuel g used regionId i g' used' regionId' i' :
  regionStep tape fuel g used regionId i = Ret (g', used', regionId', i') →
  wfGrid g → wfGrid g'.
Proof.
  unfold regionStep. intros H Hg.
  destruct (pickStart tape fuel g i) as [[[sr sc] i1]| |]; try done.
  cbn [bind] in H.
  destruct (growRegion tape fuel g sr sc regionId i1) as [[[g1 n1] i2]| |] eqn:E;
    try done.
  cbn [bind] in H. apply growRegion_wf in E; [|done].
  destruct (n1 <? 3).
  - cbv zeta in H. remember (resetCells g1 (regionId - 1)) as gr eqn:Hgr.
    injection H as <- _ _ _. subst gr. by apply resetCells_wf.
  - by injection H as <- _ _ _.
Qed.

Lemma regionLoop_wf tape fuel :
  ∀ g used regionId i g' used' i',
    regionLoop tape fuel g used regionId i = Ret (g', used', i') →
    wfGrid g → wfGrid g'.
Proof.
  induction fuel as [|fuel IH]; intros g used regionId i g' used' i' H Hg; [done|].
  cbn [regionLoop] in H. destruct (regionId <? NUM_REGIONS).
  - destruct (regionStep tape fuel g used regionId i)
      as [[[[g1 u1] r1] i1]| |] eqn:E; try done.
    cbn [bind] in H. eapply IH; [exact H|]. by eapply regionStep_wf.
  - by inversion H; subst.
Qed.

Lemma generateRegions_filled tape fuel :
  ∀ i g i', generateRegions tape fuel i = Ret (g, i') →
            wfGrid g ∧ allCellsFilled g = true.
Proof.
  induction fuel as [|fuel IH]; intros i g i' H; [done|].
  cbn [generateRegions] in H.
  destruct (regionLoop tape fuel emptyGrid [] 0 i) as [[[g1 u1] i1]| |] eqn:E;
    try done.
  cbn [bind] in H.
  destruct (allCellsFilled g1) eqn:Ef; cbn [negb orb] in H; [|by eapply IH].
  destruct (length u1 =? Z.to_nat NUM_REGIONS)%nat; cbn [negb] in H;
    [|by eapply IH].
  inversion H; subst. split; [|done].
  eapply regionLoop_wf; [exact E|apply emptyGrid_wf].
Qed.

Lemma allCellsFilled_spec g :
  allCellsFilled g = true → ∀ x, onBoard x → regionOf g x ≠ VNull.
Proof.
  unfold allCellsFilled, onBoard, regionOf. intros H x [Hr Hc].
  rewrite forallb_forall in H.
  assert (Hrow : In (row x) (seqZ 0 BOARD_SIZE)).
  { apply list_elem_of_In, elem_of_seqZ. lia. }
  specialize (H _ Hrow). rewrite forallb_forall in H.
  assert (Hcol : In (col x) (seqZ 0 BOARD_SIZE)).
  { apply list_elem_of_In, elem_of_seqZ. lia. }
  specialize (H _ Hcol). apply negb_true_iff in H.
  unfold strictEq in H. by apply bool_decide_eq_false in H.
Qed.

(** *** A run that never returns

    On the tape of zeros region 0 takes (0,0), (0,1) and (1,0); every
    later draw of a start cell is (0,0) again, which is taken. *)
Lemma pickStart_stuck fuel : ∀ g i,
  getCell g 0 0 ≠ VNull → pickStart zeroTape fuel g i = OutOfFuel.
Proof.
  induction fuel as [|fuel IH]; intros g i H; [done|].
  simpl. change (getCell g (Z.of_nat (0 mod 8)) (Z.of_nat (0 mod 8))) with (getCell g 0 0).
  unfold strictEq. rewrite bool_decide_eq_false_2 by done. simpl. by apply IH.
Qed.

Lemma regionLoop_stuck fuel g used regionId i :
  getCell g 0 0 ≠ VNull → regionId < NUM_REGIONS →
  regionLoop zeroTape fuel g used regionId i = OutOfFuel.
Proof.
  intros Hg Hr. destruct fuel as [|fuel]; [done|]. simpl.
  apply Z.ltb_lt in Hr. rewrite Hr. unfold regionStep.
  by rewrite pickStart_stuck.
Qed.

Lemma regionLoop_S tape fuel g used regionId i :
  regionLoop tape (S fuel) g used regionId i =
  if regionId <? NUM_REGIONS then
    let* (g, used, regionId, i) := regionStep tape fuel g used regionId i in
    regionLoop tape fuel g used regionId i
  else Ret (g, used, i).
Proof. reflexivity. Qed.

Lemma regionLoop_zeroTape fuel i :
  regionLoop zeroTape fuel emptyGrid [] 0 i = OutOfFuel.
Proof.
  destruct fuel as [|[|[|fuel]]]; try done.
  rewrite regionLoop_S. change (0 <? NUM_REGIONS) with true. cbv iota.
  replace (regionStep zeroTape (S (S fuel)) emptyGrid [] 0 i)
    with (Ret (setCell (setCell (setCell emptyGrid 0 0 (VNum 0)) 0 1 (VNum 0)) 1 0 (VNum 0),
               [0], 1, S (S (S (S i))))).
  2:{ unfold regionStep. vm_compute. reflexivity. }
  cbn [bind]. apply regionLoop_stuck; [by vm_compute|done].
Qed.

Lemma generateRegions_zeroTape fuel : ∀ i,
  generateRegions zeroTape fuel i = OutOfFuel.
Proof.
  destruct fuel as [|fuel]; intros i; [done|].
  simpl. by rewrite regionLoop_zeroTape.
Qed.

(** *** The validator accepts what the solver builds *)
Lemma someInRegion_false g regionId qs :
  wfGrid g → Forall (fun q => 0 <= row q < 8) qs →
  regionId ∉ (regionOf g <$> qs) →
  someInRegion g regionId qs = Ret false.
Proof.
  intros Hg. induction qs as [|q qs IH]; intros Hrows Hnot; [done|].
  apply Forall_cons in Hrows as [Hq Hrows].
  rewrite fmap_cons in Hnot. apply not_elem_of_cons in Hnot as [Hne Hnot].
  simpl. rewrite cellAt_wf by done. simpl.
  unfold strictEq.
  rewrite bool_decide_eq_false_2 by (intros Heq; apply Hne; symmetry; exact Heq).
  auto.
Qed.

Lemma existsb_false {A} (f : A → bool) (l : list A) :
  (∀ x, x ∈ l → f x = false) → existsb f l = false.
Proof.
  intros H. apply not_true_is_false. intros (x & Hx & Hf)%existsb_exists.
  apply list_elem_of_In in Hx. rewrite (H x Hx) in Hf. done.
Qed.

Lemma validate_next b qs x :
  wfGrid (regions b) → Placement (regions b) (qs ++ [x]) → (length qs < 8)%nat →
  validateQueenPlacement b (row x) (col x) qs = Ret Valid.
Proof.
  intros Hg Hp Hlen.
  apply Placement_snoc_inv in Hp as (Hp & Hrow & (Hcol & Hc & Hr & Hd)).
  unfold validateQueenPlacement.
  rewrite cellAt_wf by (done || lia). simpl.
  rewrite existsb_false.
  2:{ intros q Hq. apply Z.eqb_neq.
      pose proof (Placement_row_bound _ _ _ Hp Hq). lia. }
  rewrite existsb_false.
  2:{ intros q Hq. apply Z.eqb_neq. intros Heq. apply Hc. rewrite <- Heq.
      by apply list_elem_of_fmap_2. }
  rewrite someInRegion_false; [|done| |done].
  2:{ apply Forall_forall. intros q Hq.
      pose proof (Placement_row_bound _ _ _ Hp Hq). lia. }
  simpl. fold (isUnderAttack (row x) (col x) qs).
  replace (isUnderAttack (row x) (col x) qs) with false; [done|].
  symmetry. apply isUnderAttack_false. by destruct x.
Qed.

Lemma replay_accepts b : wfGrid (regions b) →
  ∀ todo placed, Placement (regions b) (placed ++ todo) →
                 (length (placed ++ todo) <= 8)%nat →
                 replay b placed todo = Ret true.
Proof.
  intros Hg. induction todo as [|x todo IH]; intros placed Hp Hlen; [done|].
  rewrite length_app in Hlen. simpl in Hlen. simpl.
  rewrite (snoc_app placed x todo) in Hp.
  rewrite validate_next; [|done|by eapply Placement_prefix|lia]. simpl.
  apply IH; [done|]. rewrite !length_app. simpl. lia.
Qed.

Lemma generatePuzzleBoard_inv tape fuel i b i' :
  generatePuzzleBoard tape fuel i = Ret (b, i') →
  generateRegions tape fuel i = Ret (regions b, i') ∧
  findSolution (regions b) = Ret (boardSolution b).
Proof.
  unfold generatePuzzleBoard.
  destruct (generateRegions tape fuel i) as [[g i1]| |]; [|discriminate 1..].
  cbn [bind]. destruct (findSolution g) as [r| |] eqn:E; [|discriminate 1..].
  cbn [bind]. intros H. injection H as <- <-. done.
Qed.

(** C8. For every board produced by [generatePuzzleBoard], replaying
    the cells of its [solution] through [validateQueenPlacement] in row
    order, each against the solution cells before it, never rejects. *)
Theorem solution_replays tape fuel i b i' sol :
  generatePuzzleBoard tape fuel i = Ret (b, i') →
  boardSolution b = Some sol →
  replay b [] sol = Ret true.
Proof.
  intros [Hgen Hsolve]%generatePuzzleBoard_inv Hsol.
  apply generateRegions_filled in Hgen as [Hg _].
  destruct (findSolution_Full (regions b) Hg) as (r & Hr & Hspec).
  rewrite Hsolve in Hr. injection Hr as <-. rewrite Hsol in Hspec.
  destruct Hspec as [Hp Hlen].
  apply replay_accepts; [done|done|]. rewrite app_nil_l. lia.
Qed.

Lemma solution_replays_witness :
  generatePuzzleBoard (tapeOf solvableDraws) 30 0 = Ret (solvableBoard, 52%nat) ∧
  boardSolution solvableBoard = Some solvableSolution ∧
  replay solvableBoard [] solvableSolution = Ret true.
Proof.
  assert (H : generatePuzzleBoard (tapeOf solvableDraws) 30 0
              = Ret (solvableBoard, 52%nat)) by (vm_compute; reflexivity).
  split; [exact H|]. split; [reflexivity|].
  exact (solution_replays _ _ _ _ _ _ H eq_refl).
Defined.

(** C4, as stated, fails: on the tape of zeros [generateRegions] never
    returns. *)
Lemma generateRegions_diverges :
  ¬ ∃ fuel out, generateRegions zeroTape fuel 0 = Ret out.
Proof. intros (fuel & out & H). by rewrite generateRegions_zeroTape in H. Qed.

(** C4, as amended. Region generation has no attempt bound and no
    error result: when [generateRegions] returns, it returns an 8 by 8
    grid without an unassigned cell, and there are random sequences (every
    draw 0) on which it does not return, whatever the fuel. *)
Theorem generateRegions_unbounded :
  (∀ tape fuel i g i',
     generateRegions tape fuel i = Ret (g, i') →
     wfGrid g ∧ ∀ x, onBoard x → regionOf g x ≠ VNull) ∧
  (∀ fuel i, generateRegions zeroTape fuel i = OutOfFuel).
Proof.
  split.
  - intros tape fuel i g i' [Hg Hf]%generateRegions_filled.
    split; [done|]. by apply allCellsFilled_spec.
  - intros fuel i. apply generateRegions_zeroTape.
Qed.

Lemma generateRegions_unbounded_witness :
  generateRegions (tapeOf solvableDraws) 30 0 = Ret (solvableGrid, 52%nat) ∧
  wfGrid solvableGrid ∧ ∀ x, onBoard x → regionOf solvableGrid x ≠ VNull.
Proof.
  assert (H : generateRegions (tapeOf solvableDraws) 30 0
              = Ret (solvableGrid, 52%nat)) by (vm_compute; reflexivity).
  split; [exact H|].
  exact (proj1 generateRegions_unbounded _ _ _ _ _ H).
Defined.

(** C1 fails on the code: on [unsolvableDraws] the generator fills the
    grid at its first attempt, the solver finds no assignment, and
    [generatePuzzleBoard] returns the board with [solution] null. *)
Theorem generatePuzzleBoard_null_solution :
  generatePuzzleBoard (tapeOf unsolvableDraws) 30 0
  = Ret (mkBoard unsolvableGrid None, 54%nat).
Proof. vm_compute. reflexivity. Qed.

(** C3 fails on the code: region 0 is grown around (1,1), leaving the
    pocket (0,0); the attempt for region 1 seeded there has one cell; the
    retry leaves that cell assigned to region 1 and sets the five cells of
    the completed region 0 to null. *)
Theorem retry_resets_previous_region :
  regionStep (tapeOf retryDraws) 30 emptyGrid [] 0 0
    = Ret (gridBeforeRetry, [0], 1, 4%nat) ∧
  regionStep (tapeOf retryDraws) 30 gridBeforeRetry [0] 1 4
    = Ret (gridAfterRetry, [0], 1, 8%nat) ∧
  regionSize gridBeforeRetry 0 = 5%nat ∧
  regionSize gridAfterRetry 0 = 0%nat ∧
  getCell gridAfterRetry 0 0 = VNum 1.
Proof. repeat split; vm_compute; reflexivity. Qed.

(** A cell without a neighbour in its region reaches only itself. *)
Lemma rtc_isolated g regionId a b :
  (∀ c, ¬ linked g regionId a c) → rtc (linked g regionId) a b → a = b.
Proof. intros Hiso H. destruct H as [|a c b Hac _]; [done|]. by destruct (Hiso c). Qed.

(** C2 fails on the code: on [retryDraws] the grid that is returned
    holds seven distinct region ids, has no cell of region 0, and its
    region 1 is not 4-connected. *)
Theorem generateRegions_breaks_contract :
  generateRegions (tapeOf retryDraws) 30 0 = Ret (retryGrid, 57%nat) ∧
  length (distinctIds retryGrid) = 7%nat ∧
  regionSize retryGrid 0 = 0%nat ∧
  ¬ connected retryGrid 1.
Proof.
  split; [vm_compute; reflexivity|]. split; [vm_compute; reflexivity|].
  split; [vm_compute; reflexivity|].
  intros Hconn.
  assert (Ha : inRegion retryGrid 1 (mkCell 0 0)) by (by vm_compute).
  assert (Hb : inRegion retryGrid 1 (mkCell 7 7)) by (by vm_compute).
  pose proof (Hconn _ _ Ha Hb) as Hpath.
  apply rtc_isolated in Hpath; [done|].
  intros [r c] (_ & [[Hr Hc] Hreg] & Hadj).
  unfold adjacent, BOARD_SIZE in *. simpl in *.
  assert (Hcases : (r = 0 ∧ c = 1) ∨ (r = 1 ∧ c = 0)) by lia.
  destruct Hcases as [[-> ->] | [-> ->]]; vm_compute in Hreg; done.
Qed.

End GeneratorFacts.

(** ** Facts about the rooms *)

Module ServerFacts.
Import GameLogic Server Spec.

Lemma ownRoom_putRoom rooms roomId room :
  ownRoom (putRoom rooms roomId room) roomId = Some room.
Proof.
  induction rooms as [|[k old] rooms IH]; simpl.
  - by rewrite bool_decide_eq_true_2.
  - destruct (bool_decide (k = roomId)) eqn:E; simpl; by rewrite E.
Qed.

Lemma getRoom_own rooms roomId room :
  ownRoom rooms roomId = Some room → getRoom rooms roomId = Own room.
Proof. intros H. unfold getRoom. by rewrite H. Qed.

Lemma findPlayer_None ps sock :
  (∀ p, p ∈ ps → player_id p ≠ sock) → findPlayer ps sock = None.
Proof.
  intros H. unfold findPlayer. induction ps as [|p ps IH]; [done|]. simpl.
  rewrite bool_decide_eq_false_2 by (apply H; by left).
  apply IH. intros q Hq. apply H. by right.
Qed.

Lemma findPlayer_updatePlayer ps sock f p :
  findPlayer ps sock = Some p → player_id (f p) = player_id p →
  findPlayer (updatePlayer ps sock f) sock = Some (f p).
Proof.
  unfold findPlayer. intros H Hid. induction ps as [|q ps IH]; [done|].
  simpl in *. destruct (bool_decide (player_id q = sock)) eqn:E; simpl.
  - inversion H; subst q. by rewrite Hid, E.
  - rewrite E. auto.
Qed.

(** C10. When [playerReady] names an existing room and no player of
    that room has the caller's socket id, the state is unchanged and no
    event is emitted. *)
Theorem playerReady_non_member tape fuel sock roomId isReady st room :
  ownRoom (gameRooms st) roomId = Some room →
  (∀ p, p ∈ players room → player_id p ≠ sock) →
  playerReady tape fuel sock roomId isReady st = Ret (st, []).
Proof.
  intros Hroom Hnot. unfold playerReady.
  by rewrite (getRoom_own _ _ _ Hroom), (findPlayer_None _ _ Hnot).
Qed.

Lemma playerReady_non_member_witness :
  playerReady zeroTape 0 "s3" roomCode true readyState = Ret (readyState, []).
Proof.
  eapply (playerReady_non_member zeroTape 0 "s3" roomCode true readyState).
  - vm_compute. reflexivity.
  - intros p Hp. repeat (apply elem_of_cons in Hp as [-> | Hp]; [discriminate|]).
    by apply elem_of_nil in Hp.
Defined.

Lemma sameCell_eq r c m : sameCell r c m = true ↔ m = mkCell r c.
Proof.
  unfold sameCell. rewrite andb_true_iff, !Z.eqb_eq. destruct m as [mr mc].
  simpl. split; [by intros [-> ->]|]. by inversion 1.
Qed.

Lemma existsb_sameCell r c ms :
  existsb (sameCell r c) ms = true ↔ mkCell r c ∈ ms.
Proof.
  rewrite existsb_exists. split.
  - intros (m & Hm & ->%sameCell_eq). by apply list_elem_of_In.
  - intros H. exists (mkCell r c). split; [by apply list_elem_of_In|].
    by apply sameCell_eq.
Qed.

Lemma elem_of_toggled r c ms x :
  x ∈ toggled r c ms ↔
  (x = mkCell r c ∧ mkCell r c ∉ ms) ∨ (x ≠ mkCell r c ∧ x ∈ ms).
Proof.
  unfold toggled. destruct (existsb (sameCell r c) ms) eqn:E.
  - apply existsb_sameCell in E.
    rewrite list_elem_of_In, filter_In, <- list_elem_of_In, negb_true_iff.
    rewrite <- not_true_iff_false, sameCell_eq. intuition congruence.
  - apply not_true_iff_false in E. rewrite existsb_sameCell in E.
    rewrite elem_of_app, list_elem_of_singleton.
    destruct (decide (x = mkCell r c)); intuition congruence.
Qed.

Lemma markCell_toggles sock roomId r c st room player :
  ownRoom (gameRooms st) roomId = Some room →
  gameStarted room = true →
  findPlayer (players room) sock = Some player →
  mkCell r c ∉ queens player →
  ∃ out,
    markCell sock roomId r c st =
      Ret (setRooms st (putRoom (gameRooms st) roomId
             (withRoom room
                (updatePlayer (players room) sock
                   (setMarks (toggled r c (marks player))))
                true (board room))), out).
Proof.
  intros Hroom Hstarted Hplayer Hq. unfold markCell.
  rewrite (getRoom_own _ _ _ Hroom), Hstarted, Hplayer. simpl.
  rewrite <- existsb_sameCell in Hq. apply not_true_is_false in Hq.
  rewrite Hq. unfold toggled. destruct (existsb (sameCell r c) (marks player));
    eexists; reflexivity.
Qed.

Lemma marksOf_eq st roomId sock room player :
  ownRoom (gameRooms st) roomId = Some room →
  findPlayer (players room) sock = Some player →
  marksOf st roomId sock = Some (marks player).
Proof.
  intros H1 H2. unfold marksOf. rewrite H1. cbn [mbind option_bind].
  by rewrite H2.
Qed.

(** C9. In a started room, for a member and a cell that holds none of
    the member's own queens, the first [markCell] adds the cell to the
    member's flags when it was absent and removes it when present, other
    cells staying as they were, and a second [markCell] on the same cell
    restores the original set of flags. *)
Theorem markCell_twice sock roomId r c st room player :
  ownRoom (gameRooms st) roomId = Some room →
  gameStarted room = true →
  findPlayer (players room) sock = Some player →
  mkCell r c ∉ queens player →
  ∃ st1 out1 st2 out2 m1 m2,
    markCell sock roomId r c st = Ret (st1, out1) ∧
    markCell sock roomId r c st1 = Ret (st2, out2) ∧
    marksOf st1 roomId sock = Some m1 ∧
    marksOf st2 roomId sock = Some m2 ∧
    (mkCell r c ∈ m1 ↔ mkCell r c ∉ marks player) ∧
    (∀ x, x ≠ mkCell r c → x ∈ m1 ↔ x ∈ marks player) ∧
    (∀ x, x ∈ m2 ↔ x ∈ marks player).
Proof.
  intros Hroom Hstarted Hplayer Hq.
  destruct (markCell_toggles sock roomId r c st room player) as [out1 H1];
    try done.
  set (player1 := setMarks (toggled r c (marks player)) player).
  set (room1 := withRoom room
                  (updatePlayer (players room) sock
                     (setMarks (toggled r c (marks player))))
                  true (board room)) in *.
  set (st1 := setRooms st (putRoom (gameRooms st) roomId room1)) in *.
  assert (Hroom1 : ownRoom (gameRooms st1) roomId = Some room1)
    by apply ownRoom_putRoom.
  assert (Hplayer1 : findPlayer (players room1) sock = Some player1)
    by (by apply findPlayer_updatePlayer).
  destruct (markCell_toggles sock roomId r c st1 room1 player1) as [out2 H2];
    try done.
  set (player2 := setMarks (toggled r c (marks player1)) player1).
  set (room2 := withRoom room1
                  (updatePlayer (players room1) sock
                     (setMarks (toggled r c (marks player1))))
                  true (board room1)) in *.
  set (st2 := setRooms st1 (putRoom (gameRooms st1) roomId room2)) in *.
  exists st1, out1, st2, out2, (marks player1), (marks player2).
  split; [exact H1|]. split; [exact H2|].
  split; [by apply (marksOf_eq st1 roomId sock room1)|].
  split.
  { apply (marksOf_eq st2 roomId sock room2); [apply ownRoom_putRoom|].
    by apply findPlayer_updatePlayer. }
  cbn [player2 player1 marks setMarks]. split; [|split].
  - rewrite elem_of_toggled. intuition congruence.
  - intros x Hx. rewrite elem_of_toggled. intuition congruence.
  - intros x. rewrite !elem_of_toggled.
    destruct (decide (x = mkCell r c)) as [->|]; [|intuition congruence].
    destruct (decide (mkCell r c ∈ marks player)); intuition congruence.
Qed.

Lemma markCell_twice_witness :
  ∃ st1 out1 st2 out2 m1 m2,
    markCell "s1" roomCode 2 3 readyState = Ret (st1, out1) ∧
    markCell "s1" roomCode 2 3 st1 = Ret (st2, out2) ∧
    marksOf st1 roomCode "s1" = Some m1 ∧
    marksOf st2 roomCode "s1" = Some m2 ∧
    (mkCell 2 3 ∈ m1 ↔ mkCell 2 3 ∉ []) ∧
    (∀ x, x ≠ mkCell 2 3 → x ∈ m1 ↔ x ∈ []) ∧
    (∀ x, x ∈ m2 ↔ x ∈ []).
Proof.
  eapply (markCell_twice "s1" roomCode 2 3 readyState _
            (mkPlayer "s1" "Alice" true [] [])).
  - vm_compute. reflexivity.
  - reflexivity.
  - reflexivity.
  - simpl. apply not_elem_of_nil.
Defined.

(** C6 fails on the code: after Alice's eighth valid queen the game is
    won, [gameStarted] is false and both players are reset, but the room
    still holds the board. *)
Theorem win_keeps_board :
  ∃ st out room,
    run (tapeOf sessionDraws) 30 (readyUp ++ TimerFires :: aliceSolves) initState
      = Ret (st, out) ∧
    last out = Some (ToRoom roomCode, gameWon "s1" "Alice") ∧
    ownRoom (gameRooms st) roomCode = Some room ∧
    gameStarted room = false ∧
    players room = [newPlayer "s1" "Alice"; newPlayer "s2" "Bob"] ∧
    board room = Some solvableBoard.
Proof. do 3 eexists. vm_compute. repeat split; reflexivity. Qed.

(** No handler other than the timer callback touches a pending
    delivery. *)
Lemma timers_prefix tape fuel a st st' out :
  a ≠ TimerFires → step tape fuel a st = Ret (st', out) →
  timers st `prefix_of` timers st'.
Proof.
  intros Ha H. destruct a; simpl in H; try done.
  - unfold createGame in H. destruct (generateRoomId _ _). by inversion H.
  - unfold joinGame in H. repeat case_match; inversion H; subst; done.
  - unfold playerReady in H. repeat case_match; try done;
      try (inversion H; subst; done).
    destruct (generatePuzzleBoard tape fuel (rng st)) as [[b i]| |]; try done.
    simpl in H. inversion H; subst. simpl. by apply prefix_app_r.
  - unfold placeQueen in H. repeat case_match; try done;
      try (inversion H; subst; done).
    all: destruct (validateQueenPlacement _ _ _ _) as [[|msg]| |]; try done;
      simpl in H; repeat case_match; inversion H; subst; done.
  - unfold markCell in H. repeat case_match; inversion H; subst; done.
  - unfold restartGame, resetWith in H. repeat case_match; inversion H; subst; done.
  - unfold newPuzzle, resetWith in H. repeat case_match; inversion H; subst; done.
  - unfold disconnect in H. destruct (foldl _ _ _). by inversion H.
Qed.

(** What one handled action does to a pending delivery: the timer
    callback emits the oldest one and moves the others up by one place,
    every other action leaves each of them in its place. *)
Lemma step_pending tape fuel a st st' out k roomId b :
  timers st !! k = Some (roomId, b) →
  step tape fuel a st = Ret (st', out) →
  match a, k with
  | TimerFires, O => out = [(ToRoom roomId, gameStart b)]
  | TimerFires, S k' => timers st' !! k' = Some (roomId, b)
  | _, _ => timers st' !! k = Some (roomId, b)
  end.
Proof.
  intros Hk H.
  assert (Hother : a ≠ TimerFires → timers st' !! k = Some (roomId, b)).
  { intros Ha. destruct (timers_prefix _ _ _ _ _ _ Ha H) as [more ->].
    by apply lookup_app_l_Some. }
  destruct a; try (by apply Hother).
  cbn [step] in H. unfold timerFires in H.
  destruct (timers st) as [|[roomId0 b0] rest]; [done|].
  injection H as <- <-. destruct k as [|k'].
  - cbn in Hk. by injection Hk as -> ->.
  - exact Hk.
Qed.

(** C7, as amended. The delayed [gameStart] delivery carries no token and
    is never skipped or superseded: every scheduled delivery keeps its
    place among the pending ones through whatever is handled meanwhile
    (restart, new puzzle, win, disconnect, removal of the room, ready-ups
    of other rooms), moves up by one place each time an older delivery
    fires, and when its own turn comes the timer callback emits
    [gameStart] with its board to its room. *)
Theorem gameStart_always_delivered tape fuel acts : ∀ st st' out k roomId b,
  timers st !! k = Some (roomId, b) →
  run tape fuel acts st = Ret (st', out) →
  if decide (firings acts <= k)%nat
  then timers st' !! (k - firings acts)%nat = Some (roomId, b)
  else (ToRoom roomId, gameStart b) ∈ out.
Proof.
  induction acts as [|a acts IH]; intros st st' out k roomId b Hk H.
  - cbn [run] in H. injection H as <- _. cbn [firings].
    rewrite decide_True by lia. by rewrite Nat.sub_0_r.
  - cbn [run] in H.
    destruct (step tape fuel a st) as [[st1 out1]| |] eqn:E; [|discriminate H..].
    cbn [bind] in H.
    destruct (run tape fuel acts st1) as [[st2 out2]| |] eqn:E2;
      [|discriminate H..].
    cbn [bind] in H. injection H as <- <-.
    pose proof (step_pending _ _ _ _ _ _ _ _ _ Hk E) as Hstep.
    assert (Hkeep : timers st1 !! k = Some (roomId, b) →
              if decide (firings acts <= k)%nat
              then timers st2 !! (k - firings acts)%nat = Some (roomId, b)
              else (ToRoom roomId, gameStart b) ∈ out1 ++ out2).
    { intros Hk1. specialize (IH _ _ _ _ _ _ Hk1 E2).
      destruct (decide (firings acts <= k)%nat); [done|].
      apply elem_of_app. by right. }
    destruct a; cbn [firings]; try (by apply Hkeep).
    destruct k as [|k'].
    + rewrite decide_False by lia. subst out1. apply elem_of_app. left. by left.
    + specialize (IH _ _ _ _ _ _ Hstep E2).
      destruct (decide (firings acts <= k')%nat) as [Hle|Hgt].
      * rewrite decide_True by lia. exact IH.
      * rewrite decide_False by lia. apply elem_of_app. by right.
Qed.

Lemma gameStart_always_delivered_witness :
  ∃ st' out,
    run zeroTape 0 [TimerFires; RestartGame "s3" secondCode; TimerFires]
        twoPendingState = Ret (st', out) ∧
    if decide (firings [TimerFires; RestartGame "s3" secondCode; TimerFires]
               <= 1)%nat
    then timers st'
           !! (1 - firings [TimerFires; RestartGame "s3" secondCode; TimerFires])%nat
         = Some (secondCode, unsolvableBoard)
    else (ToRoom secondCode, gameStart unsolvableBoard) ∈ out.
Proof.
  eexists _, _. split; [vm_compute; reflexivity|].
  eapply (gameStart_always_delivered zeroTape 0
            [TimerFires; RestartGame "s3" secondCode; TimerFires]
            twoPendingState _ _ 1 secondCode unsolvableBoard).
  - reflexivity.
  - vm_compute. reflexivity.
Defined.

(** C7, as stated, fails: the room is restarted while the delivery is
    pending, and the delivery still emits [gameStart] with the old board. *)
Lemma stale_gameStart_delivered :
  ∃ st out room st',
    run (tapeOf sessionDraws) 30 (readyUp ++ [RestartGame "s1" roomCode]) initState
      = Ret (st, out) ∧
    ownRoom (gameRooms st) roomCode = Some room ∧
    gameStarted room = false ∧ board room = None ∧
    timerFires st = Ret (st', [(ToRoom roomCode, gameStart solvableBoard)]).
Proof. do 4 eexists. vm_compute. repeat split; reflexivity. Qed.

End ServerFacts.

(** ** Facts about the validator *)

Module ValidatorFacts.
Import GameLogic Spec SolverFacts GeneratorFacts.

Lemma cellAt_outside g r c :
  r < 0 ∨ Z.of_nat (length g) <= r → cellAt g r c = TypeError.
Proof.
  intros Hr. unfold cellAt, rowAt. destruct (0 <=? r) eqn:E; [|done].
  apply Z.leb_le in E. rewrite lookup_ge_None_2; [done|lia].
Qed.

Lemma someInRegion_spec g v qs :
  wfGrid g → Forall (fun q => 0 <= row q < 8) qs →
  ∃ found, someInRegion g v qs = Ret found ∧
           (found = true ↔ ∃ q, q ∈ qs ∧ regionOf g q = v).
Proof.
  intros Hg. induction qs as [|q qs IH]; intros Hrows.
  - exists false. split; [done|]. split; [done|].
    intros (q & Hq & _). by apply elem_of_nil in Hq.
  - apply Forall_cons in Hrows as [Hq Hrows]. cbn [someInRegion].
    rewrite cellAt_wf by done. cbn [bind]. unfold strictEq.
    destruct (decide (getCell g (row q) (col q) = v)) as [Heq|Hne].
    + rewrite bool_decide_eq_true_2 by done. exists true. split; [done|].
      split; [|done]. intros _. exists q. split; [by left|done].
    + rewrite bool_decide_eq_false_2 by done.
      destruct (IH Hrows) as (found & Hrun & Hfound). exists found.
      split; [done|]. rewrite Hfound. split.
      * intros (q' & Hq' & Hr). exists q'. split; [by right|done].
      * intros (q' & [->|Hq']%elem_of_cons & Hr); [done|by exists q'].
Qed.

Lemma existsb_elem_of {A} (f : A → bool) (l : list A) :
  existsb f l = true ↔ ∃ x, x ∈ l ∧ f x = true.
Proof. rewrite existsb_exists. by setoid_rewrite list_elem_of_In. Qed.

(** An accepted cell is in conflict with none of the markers. *)
Lemma validate_Valid_inv b r c qs :
  wfGrid (regions b) → Forall (fun q => 0 <= row q < BOARD_SIZE) qs →
  validateQueenPlacement b r c qs = Ret Valid →
  0 <= r < BOARD_SIZE ∧ ∀ q, q ∈ qs → ¬ conflicts (regions b) q (mkCell r c).
Proof.
  intros Hg Hrows Hv. unfold BOARD_SIZE in *.
  assert (Hr : 0 <= r < 8).
  { destruct (decide (0 <= r < 8)) as [|Hout]; [done|].
    unfold validateQueenPlacement in Hv. rewrite cellAt_outside in Hv; [done|].
    destruct Hg as [-> _]. lia. }
  split; [done|]. unfold validateQueenPlacement in Hv.
  rewrite cellAt_wf in Hv by done. cbn [bind] in Hv.
  destruct (existsb (λ queen, row queen =? r) qs) eqn:Erow; [done|].
  destruct (existsb (λ queen, col queen =? c) qs) eqn:Ecol; [done|].
  destruct (someInRegion_spec (regions b) (getCell (regions b) r c) qs Hg Hrows)
    as (found & Hrun & Hfound).
  rewrite Hrun in Hv. cbn [bind] in Hv. destruct found; [done|].
  destruct (existsb (λ queen, Z.abs (row queen - r) =? Z.abs (col queen - c)) qs)
    eqn:Ediag; [done|].
  intros q Hq Hc.
  destruct Hc as [Hc | [Hc | [Hc | Hc]]]; cbn [row col] in Hc.
  - apply not_true_iff_false in Erow. apply Erow, existsb_elem_of.
    exists q. split; [done|]. by apply Z.eqb_eq.
  - apply not_true_iff_false in Ecol. apply Ecol, existsb_elem_of.
    exists q. split; [done|]. by apply Z.eqb_eq.
  - assert (false = true); [|done]. apply Hfound. by exists q.
  - apply not_true_iff_false in Ediag. apply Ediag, existsb_elem_of.
    exists q. split; [done|]. by apply Z.eqb_eq.
Qed.

(** X1. On an 8 by 8 board, for a row of the board and markers that lie in
    rows of the board, [validateQueenPlacement] returns, and it accepts
    exactly when no marker shares the row, the column, the region or a
    diagonal with the proposed cell. *)
Theorem validateQueenPlacement_spec b r c qs :
  wfGrid (regions b) → 0 <= r < BOARD_SIZE →
  Forall (fun q => 0 <= row q < BOARD_SIZE) qs →
  ∃ v, validateQueenPlacement b r c qs = Ret v ∧
       (v = Valid ↔ ∀ q, q ∈ qs → ¬ conflicts (regions b) q (mkCell r c)).
Proof.
  intros Hg Hr Hrows. unfold validateQueenPlacement, BOARD_SIZE in *.
  rewrite cellAt_wf by done. cbn [bind].
  destruct (existsb (λ queen, row queen =? r) qs) eqn:Erow.
  { eexists. split; [done|]. split; [done|]. intros Hno.
    apply existsb_elem_of in Erow as (q & Hq & Heq%Z.eqb_eq).
    destruct (Hno q Hq). by left. }
  destruct (existsb (λ queen, col queen =? c) qs) eqn:Ecol.
  { eexists. split; [done|]. split; [done|]. intros Hno.
    apply existsb_elem_of in Ecol as (q & Hq & Heq%Z.eqb_eq).
    destruct (Hno q Hq). right. by left. }
  destruct (someInRegion_spec (regions b) (getCell (regions b) r c) qs Hg Hrows)
    as (found & Hrun & Hfound).
  rewrite Hrun. cbn [bind]. destruct found.
  { eexists. split; [done|]. split; [done|]. intros Hno.
    destruct (proj1 Hfound eq_refl) as (q & Hq & Heq).
    destruct (Hno q Hq). right. right. by left. }
  destruct (existsb (λ queen, Z.abs (row queen - r) =? Z.abs (col queen - c)) qs)
    eqn:Ediag.
  { eexists. split; [done|]. split; [done|]. intros Hno.
    apply existsb_elem_of in Ediag as (q & Hq & Heq%Z.eqb_eq).
    destruct (Hno q Hq). right. right. by right. }
  exists Valid. split; [done|]. split; [|done]. intros _.
  apply (validate_Valid_inv b r c qs Hg Hrows).
  unfold validateQueenPlacement. rewrite cellAt_wf by done. cbn [bind].
  rewrite Erow, Ecol, Hrun. cbn [bind]. by rewrite Ediag.
Qed.

Lemma solvableBoard_wf : wfGrid (regions solvableBoard).
Proof. split; [reflexivity | repeat constructor]. Qed.

Lemma validateQueenPlacement_spec_witness :
  ∃ v, validateQueenPlacement solvableBoard 1 2 [mkCell 0 5] = Ret v ∧
       (v = Valid ↔
        ∀ q, q ∈ [mkCell 0 5] →
             ¬ conflicts (regions solvableBoard) q (mkCell 1 2)).
Proof.
  apply (validateQueenPlacement_spec solvableBoard 1 2 [mkCell 0 5]).
  - split; [reflexivity | repeat constructor].
  - unfold BOARD_SIZE. lia.
  - repeat constructor; unfold BOARD_SIZE; simpl; lia.
Defined.

(** X2. [validateQueenPlacement] throws a [TypeError] when the row is
    negative or past the last row of the grid: [board.regions[row]] is
    [undefined]. *)
Theorem validateQueenPlacement_row_outside b r c qs :
  r < 0 ∨ Z.of_nat (length (regions b)) <= r →
  validateQueenPlacement b r c qs = TypeError.
Proof.
  intros Hr. unfold validateQueenPlacement. by rewrite cellAt_outside.
Qed.

Lemma validateQueenPlacement_row_outside_witness :
  validateQueenPlacement solvableBoard 8 0 [] = TypeError.
Proof.
  apply (validateQueenPlacement_row_outside solvableBoard 8 0 []).
  right. simpl. lia.
Defined.

(** X3. The column is not checked against the board: with no marker
    placed yet, every cell of an existing row is accepted, whatever its
    column. *)
Theorem validateQueenPlacement_any_column b r c :
  wfGrid (regions b) → 0 <= r < BOARD_SIZE →
  validateQueenPlacement b r c [] = Ret Valid.
Proof.
  intros Hg Hr. unfold validateQueenPlacement, BOARD_SIZE in *.
  by rewrite cellAt_wf.
Qed.

Lemma validateQueenPlacement_any_column_witness :
  validateQueenPlacement solvableBoard 3 100 [] = Ret Valid.
Proof.
  apply (validateQueenPlacement_any_column solvableBoard 3 100).
  - split; [reflexivity | repeat constructor].
  - unfold BOARD_SIZE. lia.
Defined.

End ValidatorFacts.

(** ** Further facts about the solver and the generator *)

Module RegionFacts.
Import GameLogic Spec SolverFacts GeneratorFacts.

(** Reading an on-board cell of an 8 by 8 grid. *)
Lemma getCell_lookup g r c :
  wfGrid g → 0 <= r < 8 → 0 <= c < 8 →
  ∃ line, g !! Z.to_nat r = Some line ∧
          line !! Z.to_nat c = Some (getCell g r c).
Proof.
  intros [Hl Hf] Hr Hc. unfold getCell, cellAt, rowAt, entryAt.
  destruct (0 <=? r) eqn:Er; [|lia]. destruct (0 <=? c) eqn:Ec; [|lia].
  destruct (g !! Z.to_nat r) as [line|] eqn:El.
  2:{ apply lookup_ge_None in El. lia. }
  exists line. split; [done|].
  pose proof (Forall_lookup_1 _ _ _ _ Hf El) as Hlen. simpl in Hlen.
  destruct (line !! Z.to_nat c) eqn:Ee; [done|].
  apply lookup_ge_None in Ee. lia.
Qed.

Lemma regionOf_in_grid g x :
  wfGrid g → onBoard x → regionOf g x ∈ concat g.
Proof.
  intros Hg [Hr Hc]. unfold BOARD_SIZE in *.
  destruct (getCell_lookup g (row x) (col x) Hg Hr Hc) as (line & Hl & He).
  apply list_elem_of_In, in_concat. exists line.
  split; apply list_elem_of_In; by eapply list_elem_of_lookup_2.
Qed.

(** X4. On an 8 by 8 grid that holds fewer than eight distinct entries
    [findSolution] returns [null]. *)
Theorem findSolution_needs_eight_regions g :
  wfGrid g → (length (distinctIds g) < 8)%nat → findSolution g = Ret None.
Proof.
  intros Hg Hfew. destruct (findSolution_Full g Hg) as ([sol|] & Hrun & Hspec);
    [|done].
  exfalso. apply Assignment_Full in Hspec as [Hrows Hcols _ Hreg _].
  assert (Hlen : length (regionOf g <$> sol) = 8%nat).
  { rewrite length_fmap, <- (length_fmap row), Hrows, length_seqZ. done. }
  assert (Hsub : regionOf g <$> sol ⊆+ distinctIds g).
  { apply NoDup_submseteq; [done|]. intros v (x & -> & Hx)%list_elem_of_fmap.
    unfold distinctIds. apply elem_of_remove_dups, regionOf_in_grid; [done|].
    split.
    - assert (Hin : row x ∈ row <$> sol) by (by apply list_elem_of_fmap_2).
      rewrite Hrows in Hin. apply elem_of_seqZ in Hin. lia.
    - by apply (proj1 (Forall_forall _ _) Hcols). }
  apply submseteq_length in Hsub. lia.
Qed.

Lemma findSolution_needs_eight_regions_witness :
  findSolution retryGrid = Ret None.
Proof.
  apply (findSolution_needs_eight_regions retryGrid).
  - split; [reflexivity | repeat constructor].
  - vm_compute. lia.
Defined.

(** *** Reading back what [setCell] wrote *)

Lemma getCell_setCell_eq g r c v :
  wfGrid g → 0 <= r < 8 → 0 <= c < 8 → getCell (setCell g r c v) r c = v.
Proof.
  intros Hg Hr Hc.
  destruct (getCell_lookup g r c Hg Hr Hc) as (line & Hl & He).
  destruct Hg as [Hlen Hf].
  unfold getCell, cellAt, setCell, rowAt, entryAt.
  destruct (0 <=? r) eqn:Er; [|lia]. destruct (0 <=? c) eqn:Ec; [|lia].
  rewrite Hl. rewrite list_lookup_insert_eq by (apply lookup_lt_Some in Hl; lia).
  rewrite list_lookup_insert_eq by (apply lookup_lt_Some in He; lia). done.
Qed.

Lemma getCell_setCell_ne g r c v r' c' :
  (r', c') ≠ (r, c) → 0 <= r → 0 <= c →
  getCell (setCell g r c v) r' c' = getCell g r' c'.
Proof.
  intros Hne Hr Hc. unfold getCell, cellAt, setCell, rowAt.
  destruct (0 <=? r) eqn:Er; [|lia].
  destruct (g !! Z.to_nat r) as [line|] eqn:El; [|done].
  destruct (0 <=? r') eqn:Er'; [|done]. apply Z.leb_le in Er'.
  destruct (decide (r' = r)) as [->|Hrr].
  - rewrite list_lookup_insert_eq by (apply lookup_lt_Some in El; lia).
    rewrite El. unfold entryAt. destruct (0 <=? c') eqn:Ec'; [|done].
    apply Z.leb_le in Ec'.
    rewrite list_lookup_insert_ne; [done|]. intros Heq. apply Hne.
    f_equal. lia.
  - rewrite list_lookup_insert_ne by lia. done.
Qed.

(** *** The start cell *)

(** X5. The start cell drawn by the [do ... while] loop of
    [generateRegions] lies on the board and is unassigned. *)
Theorem pickStart_unassigned tape fuel : ∀ g i r c i',
  pickStart tape fuel g i = Ret (r, c, i') →
  onBoard (mkCell r c) ∧ getCell g r c = VNull.
Proof.
  induction fuel as [|fuel IH]; intros g i r c i' H; [done|].
  cbn [pickStart] in H. unfold randomInt in H.
  destruct (strictEq _ VNull) eqn:E in H; cbn [negb] in H; [|by eapply IH].
  injection H as <- <- _. split.
  - unfold onBoard, BOARD_SIZE. cbn [row col].
    pose proof (Nat.mod_upper_bound (tape i) 8).
    pose proof (Nat.mod_upper_bound (tape (S i)) 8).
    change (Z.to_nat 8) with 8%nat. lia.
  - unfold strictEq in E. by apply bool_decide_eq_true in E.
Qed.

Lemma pickStart_unassigned_witness :
  onBoard (mkCell 1 1) ∧ getCell emptyGrid 1 1 = VNull.
Proof.
  apply (pickStart_unassigned (tapeOf retryDraws) 1 emptyGrid 0 1 1 2).
  reflexivity.
Defined.

(** *** Ids written by the generator *)

Lemma setCell_entries g r c v :
  entriesOk g → idOrNull v → entriesOk (setCell g r c v).
Proof.
  intros Hg Hv. unfold setCell, rowAt.
  destruct (0 <=? r); [|done].
  destruct (g !! Z.to_nat r) as [line|] eqn:E; [|done].
  apply Forall_insert; [done|]. apply Forall_insert; [|done].
  by apply (Forall_lookup_1 _ _ _ _ Hg E).
Qed.

Lemma idOrNull_id id : 0 <= id < NUM_REGIONS → idOrNull (VNum id).
Proof. intros H. right. by exists id. Qed.

Lemma scanDirections_entries dirs r c regionId targetSize :
  0 <= regionId < NUM_REGIONS →
  ∀ g n q g' n' q',
    scanDirections dirs r c regionId targetSize g n q = (g', n', q') →
    entriesOk g → entriesOk g'.
Proof.
  intros Hid.
  induction dirs as [|[dr dc] dirs IH]; intros g n q g' n' q' H Hg;
    cbn [scanDirections] in H.
  - by injection H as <- _ _.
  - destruct (_ && _) in H; [|by eapply IH].
    destruct (targetSize <=? n + 1) in H.
    + injection H as <- _ _. by apply setCell_entries, idOrNull_id.
    + eapply IH; [exact H|]. by apply setCell_entries, idOrNull_id.
Qed.

Lemma growLoop_entries tape fuel regionId targetSize :
  0 <= regionId < NUM_REGIONS →
  ∀ g n q i g' n' i',
    growLoop tape fuel regionId targetSize g n q i = Ret (g', n', i') →
    entriesOk g → entriesOk g'.
Proof.
  intros Hid.
  induction fuel as [|fuel IH]; intros g n q i g' n' i' H Hg; [done|].
  cbn [growLoop] in H. destruct (_ && _) in H.
  - destruct (randomInt tape (length q) i) as [k i1].
    destruct (scanDirections _ _ _ _ _ _ _ _) as [[g1 n1] q1] eqn:E.
    eapply IH; [exact H|]. by eapply scanDirections_entries.
  - by injection H as <- _ _.
Qed.

Lemma growRegion_entries tape fuel g r c regionId i g' n' i' :
  0 <= regionId < NUM_REGIONS →
  growRegion tape fuel g r c regionId i = Ret (g', n', i') →
  entriesOk g → entriesOk g'.
Proof.
  intros Hid. unfold growRegion. destruct (randomInt tape 10 i) as [t i1].
  intros H Hg. eapply growLoop_entries; [done|exact H|].
  by apply setCell_entries, idOrNull_id.
Qed.

Lemma resetCells_entries g regionId : entriesOk g → entriesOk (resetCells g regionId).
Proof.
  intros Hg. unfold resetCells.
  apply (foldl_invariant entriesOk); [|done]. intros g1 r Hg1.
  apply (foldl_invariant entriesOk); [|done]. intros g2 c Hg2.
  destruct (strictEq _ _); [|done]. apply setCell_entries; [done|by left].
Qed.

Lemma regionStep_entries tape fuel g used regionId i g' used' regionId' i' :
  0 <= regionId < NUM_REGIONS →
  regionStep tape fuel g used regionId i = Ret (g', used', regionId', i') →
  entriesOk g → entriesOk g' ∧ 0 <= regionId'.
Proof.
  unfold regionStep. intros Hid H Hg.
  destruct (pickStart tape fuel g i) as [[[sr sc] i1]| |]; try done.
  cbn [bind] in H.
  destruct (growRegion tape fuel g sr sc regionId i1) as [[[g1 n1] i2]| |] eqn:E;
    try done.
  cbn [bind] in H. apply growRegion_entries in E; [|done..].
  destruct (n1 <? 3).
  - cbv zeta in H. remember (resetCells g1 (regionId - 1)) as gr eqn:Hgr.
    injection H as <- _ <- _. subst gr. split; [by apply resetCells_entries|lia].
  - injection H as <- _ <- _. split; [done|lia].
Qed.

Lemma regionLoop_entries tape fuel :
  ∀ g used regionId i g' used' i',
    0 <= regionId →
    regionLoop tape fuel g used regionId i = Ret (g', used', i') →
    entriesOk g → entriesOk g'.
Proof.
  induction fuel as [|fuel IH]; intros g used regionId i g' used' i' Hid H Hg;
    [done|].
  cbn [regionLoop] in H. destruct (regionId <? NUM_REGIONS) eqn:Elt.
  - apply Z.ltb_lt in Elt.
    destruct (regionStep tape fuel g used regionId i)
      as [[[[g1 u1] r1] i1]| |] eqn:E; try done.
    cbn [bind] in H. apply regionStep_entries in E as [Hg1 Hr1]; [|done..].
    by eapply IH.
  - by injection H as <- _ _.
Qed.

Lemma emptyGrid_entries : entriesOk emptyGrid.
Proof. repeat constructor. Qed.

Lemma generateRegions_entries tape fuel :
  ∀ i g i', generateRegions tape fuel i = Ret (g, i') → entriesOk g.
Proof.
  induction fuel as [|fuel IH]; intros i g i' H; [done|].
  cbn [generateRegions] in H.
  destruct (regionLoop tape fuel emptyGrid [] 0 i) as [[[g1 u1] i1]| |] eqn:E;
    try done.
  cbn [bind] in H.
  destruct (negb (allCellsFilled g1) || _) in H; [by eapply IH|].
  injection H as <- _.
  eapply regionLoop_entries; [|exact E|apply emptyGrid_entries]. done.
Qed.

(** X6. In every grid returned by [generateRegions] each cell of the
    board holds a region id between 0 and 7. *)
Theorem generateRegions_ids tape fuel i g i' :
  generateRegions tape fuel i = Ret (g, i') →
  ∀ x, onBoard x → ∃ id, 0 <= id < NUM_REGIONS ∧ regionOf g x = VNum id.
Proof.
  intros H x Hx.
  pose proof (generateRegions_entries _ _ _ _ _ H) as He.
  apply generateRegions_filled in H as [Hg Hf].
  pose proof (allCellsFilled_spec g Hf x Hx) as Hnn.
  destruct Hx as [Hr Hc]. unfold BOARD_SIZE in *.
  destruct (getCell_lookup g (row x) (col x) Hg Hr Hc) as (line & Hl & Hv).
  pose proof (Forall_lookup_1 _ _ _ _ He Hl) as Hline.
  pose proof (Forall_lookup_1 _ _ _ _ Hline Hv) as [Hnull|Hid]; [done|].
  exact Hid.
Qed.

Lemma generateRegions_ids_witness :
  ∃ id, 0 <= id < NUM_REGIONS ∧ regionOf retryGrid (mkCell 0 0) = VNum id.
Proof.
  apply (generateRegions_ids (tapeOf retryDraws) 30 0 retryGrid 57).
  - vm_compute. reflexivity.
  - unfold onBoard, BOARD_SIZE. simpl. lia.
Defined.

(** *** What growing a region may change *)

Lemma grownFrom_refl regionId g : wfGrid g → grownFrom regionId g g.
Proof. intros Hg. split; [done|]. by left. Qed.

Lemma grownFrom_trans regionId g1 g2 g3 :
  grownFrom regionId g1 g2 → grownFrom regionId g2 g3 → grownFrom regionId g1 g3.
Proof.
  intros [_ H12] [Hg3 H23]. split; [done|]. intros r c.
  destruct (H23 r c) as [E23|[E3 E2]], (H12 r c) as [E12|[E2' E1]].
  - left. congruence.
  - right. split; congruence.
  - right. split; congruence.
  - right. split; congruence.
Qed.

Lemma grownFrom_setCell regionId g r c :
  wfGrid g → 0 <= r < 8 → 0 <= c < 8 → getCell g r c = VNull →
  grownFrom regionId g (setCell g r c (VNum regionId)).
Proof.
  intros Hg Hr Hc Hnull. split; [by apply setCell_wf|]. intros r' c'.
  destruct (decide ((r', c') = (r, c))) as [[= -> ->]|Hne].
  - right. by rewrite getCell_setCell_eq.
  - left. apply getCell_setCell_ne; [done|lia..].
Qed.

Lemma scanDirections_grown dirs r c regionId targetSize :
  ∀ g n q g' n' q',
    scanDirections dirs r c regionId targetSize g n q = (g', n', q') →
    wfGrid g → n < targetSize →
    grownFrom regionId g g' ∧ n <= n' <= targetSize.
Proof.
  induction dirs as [|[dr dc] dirs IH]; intros g n q g' n' q' H Hg Hn;
    cbn [scanDirections] in H.
  - injection H as <- <- _. split; [by apply grownFrom_refl|lia].
  - destruct (_ && _) eqn:Econd in H; [|by eapply IH].
    repeat (apply andb_true_iff in Econd as [Econd ?]).
    assert (Hnull : getCell g (r + dr) (c + dc) = VNull).
    { unfold strictEq in *. by apply bool_decide_eq_true in H0. }
    assert (Hstep : grownFrom regionId g (setCell g (r + dr) (c + dc) (VNum regionId))).
    { unfold BOARD_SIZE in *. apply grownFrom_setCell; try done; lia. }
    destruct (targetSize <=? n + 1) eqn:Et in H.
    + injection H as <- <- _. split; [done|lia].
    + apply Z.leb_gt in Et.
      apply IH in H as [Hgrown Hbound]; [|by apply setCell_wf|lia].
      split; [by eapply grownFrom_trans|lia].
Qed.

Lemma growLoop_grown tape fuel regionId targetSize :
  ∀ g n q i g' n' i',
    growLoop tape fuel regionId targetSize g n q i = Ret (g', n', i') →
    wfGrid g → n <= targetSize →
    grownFrom regionId g g' ∧ n <= n' <= targetSize.
Proof.
  induction fuel as [|fuel IH]; intros g n q i g' n' i' H Hg Hn; [done|].
  cbn [growLoop] in H. destruct (_ && _) eqn:Econd in H.
  - apply andb_true_iff in Econd as [_ Hlt%Z.ltb_lt].
    destruct (randomInt tape (length q) i) as [k i1].
    destruct (scanDirections _ _ _ _ _ _ _ _) as [[g1 n1] q1] eqn:E.
    apply scanDirections_grown in E as [Hgrown Hbound]; [|done..].
    apply IH in H as [Hgrown' Hbound']; [|by destruct Hgrown|lia].
    split; [by eapply grownFrom_trans|lia].
  - injection H as <- <- _. split; [by apply grownFrom_refl|lia].
Qed.

(** What [growRegion] does to the grid when it returns. *)
Lemma growRegion_grown tape fuel g startRow startCol regionId i g' n i' :
  wfGrid g → onBoard (mkCell startRow startCol) →
  growRegion tape fuel g startRow startCol regionId i = Ret (g', n, i') →
  1 <= n <= 12 ∧
  getCell g' startRow startCol = VNum regionId ∧
  ∀ r c, (r, c) ≠ (startRow, startCol) →
         getCell g' r c = getCell g r c ∨
         (getCell g' r c = VNum regionId ∧ getCell g r c = VNull).
Proof.
  intros Hg [Hr Hc] H. unfold BOARD_SIZE in *. cbn [row col] in *.
  unfold growRegion, randomInt in H.
  pose proof (Nat.mod_upper_bound (tape i) 10).
  apply growLoop_grown in H as [[Hg' Hgrown] Hbound];
    [|by apply setCell_wf|lia].
  split; [lia|]. split.
  - destruct (Hgrown startRow startCol) as [E|[E _]]; [|done].
    rewrite E. by apply getCell_setCell_eq.
  - intros r c Hne. destruct (Hgrown r c) as [E|[E1 E2]].
    + left. rewrite E. apply getCell_setCell_ne; [done|lia..].
    + right. split; [done|]. rewrite <- E2. symmetry.
      apply getCell_setCell_ne; [done|lia..].
Qed.

(** *** The flood fill ends

    Every pass of the [while] loop takes one cell off the queue, and each
    cell it puts on the queue raises the count, which never passes the
    target: the queue length plus the distance to the target drops by one
    per pass. *)

Lemma scanDirections_count dirs r c regionId targetSize :
  ∀ g n q g' n' q',
    scanDirections dirs r c regionId targetSize g n q = (g', n', q') →
    n < targetSize →
    n <= n' <= targetSize ∧
    Z.of_nat (length q') = Z.of_nat (length q) + (n' - n).
Proof.
  induction dirs as [|[dr dc] dirs IH]; intros g n q g' n' q' H Hn;
    cbn [scanDirections] in H.
  - injection H as _ <- <-. lia.
  - destruct (_ && _) in H; [|by eapply IH].
    destruct (targetSize <=? n + 1) eqn:Et in H.
    + injection H as _ <- <-. rewrite length_app. cbn [length]. lia.
    + apply Z.leb_gt in Et. apply IH in H; [|lia].
      rewrite length_app in H. cbn [length] in H. lia.
Qed.

Lemma growLoop_returns tape regionId targetSize :
  ∀ fuel g n q i,
    n <= targetSize →
    Z.of_nat (length q) + (targetSize - n) < Z.of_nat fuel →
    ∃ out, growLoop tape fuel regionId targetSize g n q i = Ret out.
Proof.
  induction fuel as [|fuel IH]; intros g n q i Hn Hfuel; [lia|].
  cbn [growLoop]. destruct (_ && _) eqn:Econd; [|by eexists].
  apply andb_true_iff in Econd as [Hq%Nat.ltb_lt Hlt%Z.ltb_lt].
  unfold randomInt.
  assert (Hk : (tape i mod length q < length q)%nat)
    by (apply Nat.mod_upper_bound; lia).
  destruct (scanDirections _ _ _ _ _ _ _ _) as [[g1 n1] q1] eqn:E.
  apply scanDirections_count in E as [Hbound Hlen]; [|done].
  rewrite length_delete in Hlen by (by apply lookup_lt_is_Some_2).
  apply IH; lia.
Qed.

Lemma growRegion_returns tape fuel g startRow startCol regionId i :
  (13 <= fuel)%nat →
  ∃ out, growRegion tape fuel g startRow startCol regionId i = Ret out.
Proof.
  intros Hfuel. unfold growRegion, randomInt.
  pose proof (Nat.mod_upper_bound (tape i) 10).
  apply growLoop_returns; cbn [length]; lia.
Qed.

(** X7. [growRegion], started on a cell of the board, returns (thirteen
    units of fuel are enough for its loop), with a count between 1 and 12;
    it leaves the start cell in the region, and changes no other cell
    except unassigned ones, which it assigns to the region. *)
Theorem growRegion_frame tape fuel g startRow startCol regionId i :
  wfGrid g → onBoard (mkCell startRow startCol) → (13 <= fuel)%nat →
  ∃ g' n i',
    growRegion tape fuel g startRow startCol regionId i = Ret (g', n, i') ∧
    1 <= n <= 12 ∧
    getCell g' startRow startCol = VNum regionId ∧
    ∀ r c, (r, c) ≠ (startRow, startCol) →
           getCell g' r c = getCell g r c ∨
           (getCell g' r c = VNum regionId ∧ getCell g r c = VNull).
Proof.
  intros Hg Hstart Hfuel.
  destruct (growRegion_returns tape fuel g startRow startCol regionId i Hfuel)
    as [[[g' n] i'] Hrun].
  exists g', n, i'. split; [exact Hrun|].
  by apply (growRegion_grown tape fuel g startRow startCol regionId i g' n i').
Qed.

Lemma growRegion_frame_witness :
  ∃ g' n i',
    growRegion (tapeOf retryDraws) 30 emptyGrid 1 1 0 2 = Ret (g', n, i') ∧
    1 <= n <= 12 ∧
    getCell g' 1 1 = VNum 0 ∧
    ∀ r c, (r, c) ≠ (1, 1) →
           getCell g' r c = getCell emptyGrid r c ∨
           (getCell g' r c = VNum 0 ∧ getCell emptyGrid r c = VNull).
Proof.
  apply (growRegion_frame (tapeOf retryDraws) 30 emptyGrid 1 1 0 2).
  - split; [reflexivity | repeat constructor].
  - unfold onBoard, BOARD_SIZE. simpl. lia.
  - lia.
Defined.

(** *** What the reset loops clear *)

Lemma resetOne_spec regionId g r c r' c' :
  wfGrid g → 0 <= r < 8 → 0 <= c < 8 →
  getCell (resetOne regionId g r c) r' c' =
  if decide ((r', c') = (r, c) ∧ getCell g r' c' = VNum regionId)
  then VNull else getCell g r' c'.
Proof.
  intros Hg Hr Hc. unfold resetOne, strictEq.
  destruct (decide ((r', c') = (r, c))) as [[= -> ->]|Hne].
  - destruct (decide (getCell g r c = VNum regionId)) as [E|E].
    + rewrite bool_decide_eq_true_2 by done.
      rewrite getCell_setCell_eq by done. by rewrite decide_True.
    + rewrite bool_decide_eq_false_2 by done.
      rewrite decide_False; [done|]. by intros [_ ?].
  - rewrite (decide_False (P := _ ∧ _)) by (by intros [? _]).
    destruct (bool_decide _); [|done]. apply getCell_setCell_ne; [done|lia..].
Qed.

Lemma resetOne_wf regionId g r c : wfGrid g → wfGrid (resetOne regionId g r c).
Proof. intros Hg. unfold resetOne. destruct (strictEq _ _); [by apply setCell_wf|done]. Qed.

Lemma resetRow_spec regionId r : 0 <= r < 8 →
  ∀ cs g, wfGrid g → Forall (fun c => 0 <= c < 8) cs →
    let g' := foldl (fun g c => resetOne regionId g r c) g cs in
    wfGrid g' ∧
    ∀ r' c', getCell g' r' c' =
             if decide (r' = r ∧ c' ∈ cs ∧ getCell g r' c' = VNum regionId)
             then VNull else getCell g r' c'.
Proof.
  intros Hr. induction cs as [|c cs IH]; intros g Hg Hcs; cbn [foldl].
  - split; [done|]. intros r' c'. rewrite decide_False; [done|].
    intros (_ & Hin & _). by apply elem_of_nil in Hin.
  - apply Forall_cons in Hcs as [Hc Hcs].
    destruct (IH (resetOne regionId g r c) (resetOne_wf _ _ _ _ Hg) Hcs)
      as [Hwf Hspec].
    split; [done|]. intros r' c'. rewrite Hspec, !resetOne_spec by done.
    destruct (decide (getCell g r' c' = VNum regionId)) as [E|E].
    + destruct (decide ((r', c') = (r, c))) as [[= -> ->]|Hne].
      * rewrite (decide_True (P := (r, c) = (r, c) ∧ _)) by done.
        rewrite (decide_False (P := r = r ∧ c ∈ cs ∧ _)) by (by intros (_ & _ & ?)).
        rewrite decide_True; [done|]. split; [done|]. split; [by left|done].
      * rewrite (decide_False (P := (r', c') = (r, c) ∧ _)) by (by intros [? _]).
        destruct (decide (r' = r ∧ c' ∈ cs ∧ getCell g r' c' = VNum regionId))
          as [(-> & Hin & _)|Hno].
        -- rewrite decide_True; [done|]. split; [done|]. split; [by right|done].
        -- rewrite decide_False; [done|].
           intros (-> & [->|Hin]%elem_of_cons & _); [done|]. by apply Hno.
    + rewrite (decide_False (P := (r', c') = (r, c) ∧ _)) by (by intros [_ ?]).
      rewrite (decide_False (P := r' = r ∧ c' ∈ cs ∧ _)) by (by intros (_ & _ & ?)).
      rewrite decide_False; [done|]. by intros (_ & _ & ?).
Qed.

Lemma resetRows_spec regionId :
  ∀ rs g, wfGrid g → Forall (fun r => 0 <= r < 8) rs →
    let g' := foldl (fun g r =>
                foldl (fun g c => resetOne regionId g r c) g (seqZ 0 8)) g rs in
    wfGrid g' ∧
    ∀ r' c', getCell g' r' c' =
             if decide (r' ∈ rs ∧ c' ∈ seqZ 0 8 ∧ getCell g r' c' = VNum regionId)
             then VNull else getCell g r' c'.
Proof.
  induction rs as [|r rs IH]; intros g Hg Hrs; cbn [foldl].
  - split; [done|]. intros r' c'. rewrite decide_False; [done|].
    intros (Hin & _). by apply elem_of_nil in Hin.
  - apply Forall_cons in Hrs as [Hr Hrs].
    assert (Hcols : Forall (fun c => 0 <= c < 8) (seqZ 0 8)).
    { apply Forall_seqZ. lia. }
    destruct (resetRow_spec regionId r Hr (seqZ 0 8) g Hg Hcols) as [Hwf1 Hrow].
    cbv zeta in Hrow, Hwf1.
    destruct (IH _ Hwf1 Hrs) as [Hwf Hspec].
    split; [done|]. intros r' c'. rewrite Hspec, !Hrow.
    destruct (decide (getCell g r' c' = VNum regionId)) as [E|E].
    + destruct (decide (r' = r ∧ c' ∈ seqZ 0 8 ∧ getCell g r' c' = VNum regionId))
        as [(-> & Hin & _)|Hno].
      * rewrite (decide_False (P := r ∈ rs ∧ _)) by (by intros (_ & _ & ?)).
        rewrite decide_True; [done|]. split; [by left|done].
      * destruct (decide (r' ∈ rs ∧ c' ∈ seqZ 0 8 ∧ getCell g r' c' = VNum regionId))
          as [(Hin & Hc & _)|Hno'].
        -- rewrite decide_True; [done|]. split; [by right|done].
        -- rewrite decide_False; [done|].
           intros ([->|Hin]%elem_of_cons & Hc & _); [by apply Hno|by apply Hno'].
    + rewrite (decide_False (P := r' = r ∧ _)) by (by intros (_ & _ & ?)).
      rewrite (decide_False (P := r' ∈ rs ∧ _)) by (by intros (_ & _ & ?)).
      rewrite decide_False; [done|]. by intros (_ & _ & ?).
Qed.

Lemma getCell_id_on_board g r c id :
  wfGrid g → getCell g r c = VNum id → 0 <= r < 8 ∧ 0 <= c < 8.
Proof.
  intros [Hlen Hf]. unfold getCell, cellAt, rowAt, entryAt.
  destruct (0 <=? r) eqn:Er; [|done]. apply Z.leb_le in Er.
  destruct (g !! Z.to_nat r) as [line|] eqn:El; [|done].
  destruct (0 <=? c) eqn:Ec; [|done]. apply Z.leb_le in Ec.
  destruct (line !! Z.to_nat c) eqn:Ee; [|done]. intros _.
  pose proof (Forall_lookup_1 _ _ _ _ Hf El) as Hl. simpl in Hl.
  apply lookup_lt_Some in El, Ee. lia.
Qed.

(** X8. The reset loops of [generateRegions] keep the grid 8 by 8, set to
    [null] exactly the cells that held the given region id, and leave every
    other cell as it was. *)
Theorem resetCells_spec g regionId r c :
  wfGrid g →
  wfGrid (resetCells g regionId) ∧
  getCell (resetCells g regionId) r c =
  if decide (getCell g r c = VNum regionId) then VNull else getCell g r c.
Proof.
  intros Hg.
  assert (Hrows : Forall (fun r => 0 <= r < 8) (seqZ 0 8)).
  { apply Forall_seqZ. lia. }
  destruct (resetRows_spec regionId (seqZ 0 8) g Hg Hrows) as [Hwf Hspec].
  split; [exact Hwf|]. unfold resetCells, BOARD_SIZE.
  change (getCell
            (foldl (λ g0 r0, foldl (λ g1 c0, resetOne regionId g1 r0 c0) g0 (seqZ 0 8))
                   g (seqZ 0 8)) r c =
          if decide (getCell g r c = VNum regionId) then VNull else getCell g r c).
  rewrite Hspec.
  destruct (decide (getCell g r c = VNum regionId)) as [E|E].
  - rewrite decide_True; [done|].
    destruct (getCell_id_on_board g r c regionId Hg E).
    rewrite !elem_of_seqZ. repeat split; (done || lia).
  - rewrite decide_False; [done|]. by intros (_ & _ & ?).
Qed.

Lemma resetCells_spec_witness :
  wfGrid (resetCells gridBeforeRetry 0) ∧
  getCell (resetCells gridBeforeRetry 0) 1 1 =
  if decide (getCell gridBeforeRetry 1 1 = VNum 0) then VNull
  else getCell gridBeforeRetry 1 1.
Proof.
  apply (resetCells_spec gridBeforeRetry 0 1 1).
  split; [reflexivity | repeat constructor].
Defined.

End RegionFacts.

(** ** Facts about room ids and lookups *)

Module RoomFacts.
Import GameLogic Server Spec SolverFacts GeneratorFacts ServerFacts.

(** *** Room ids *)

Lemma charAt_inside s k :
  (k < String.length s)%nat →
  ∃ a, charAt s k = String a EmptyString ∧ In a (String.list_ascii_of_string s).
Proof.
  unfold charAt. revert k. induction s as [|b s IH]; intros k Hk; simpl in *; [lia|].
  destruct k as [|k].
  - exists b. split; [done|]. by left.
  - destruct (IH k) as (a & Ha & Hin); [lia|].
    destruct (String.get k s); [|done]. exists a. split; [done|]. by right.
Qed.

Lemma length_append s t :
  String.length (String.append s t) = (String.length s + String.length t)%nat.
Proof. induction s; simpl; auto. Qed.

Lemma list_ascii_append s t :
  String.list_ascii_of_string (String.append s t)
  = String.list_ascii_of_string s ++ String.list_ascii_of_string t.
Proof. induction s; simpl; [done|]. by f_equal. Qed.

Lemma generateRoomIdLoop_shape tape n : ∀ acc i,
  Forall (fun a => In a (String.list_ascii_of_string chars)) (String.list_ascii_of_string acc) →
  let out := generateRoomIdLoop tape n acc i in
  String.length out.1 = (String.length acc + n)%nat ∧
  out.2 = (i + n)%nat ∧
  Forall (fun a => In a (String.list_ascii_of_string chars)) (String.list_ascii_of_string out.1).
Proof.
  induction n as [|n IH]; intros acc i Hacc; cbn [generateRoomIdLoop].
  - cbn [fst snd]. repeat split; (done || lia).
  - unfold randomInt.
    destruct (charAt_inside chars (tape i mod String.length chars)%nat)
      as (a & Ha & Hin).
    { apply Nat.mod_upper_bound. done. }
    rewrite Ha.
    destruct (IH (String.append acc (String a EmptyString)) (S i)) as (H1 & H2 & H3).
    { rewrite list_ascii_append. apply Forall_app. split; [done|].
      simpl. constructor; [done|constructor]. }
    rewrite length_append in H1. simpl in H1.
    repeat split; (done || lia).
Qed.

Lemma inheritedKeys_lengths :
  Forall (fun k => String.length k ≠ 6%nat) inheritedKeys.
Proof. repeat constructor; discriminate. Qed.

(** X9. [generateRoomId] makes six draws and returns six characters, all
    of them letters or digits of [chars]; the id is never the name of a
    property inherited from [Object.prototype]. *)
Theorem generateRoomId_shape tape i :
  let out := generateRoomId tape i in
  String.length out.1 = 6%nat ∧
  out.2 = (i + 6)%nat ∧
  Forall (fun a => In a (String.list_ascii_of_string chars)) (String.list_ascii_of_string out.1) ∧
  out.1 ∉ inheritedKeys.
Proof.
  unfold generateRoomId.
  destruct (generateRoomIdLoop_shape tape 6 EmptyString i) as (H1 & H2 & H3);
    [constructor|].
  cbv zeta. repeat split; try done.
  intros Hin. by apply (proj1 (Forall_forall _ _) inheritedKeys_lengths _ Hin).
Qed.

(** *** Storing and finding rooms *)

Lemma ownRoom_putRoom_ne rooms roomId room k :
  k ≠ roomId → ownRoom (putRoom rooms roomId room) k = ownRoom rooms k.
Proof.
  intros Hne. induction rooms as [|[k' old] rooms IH]; simpl.
  - by rewrite bool_decide_eq_false_2.
  - destruct (bool_decide (k' = roomId)) eqn:E; simpl.
    + apply bool_decide_eq_true in E as ->.
      by rewrite !bool_decide_eq_false_2.
    + by rewrite IH.
Qed.

(** X10. [createGame] stores, under the generated id, a room that is not
    started, has no board and holds only the creator, replacing whatever
    was stored under that id; it reports the id to the creator and leaves
    the other rooms and the pending timers alone. *)
Theorem createGame_fresh tape sock playerName st :
  ∃ st',
    let roomId := (generateRoomId tape (rng st)).1 in
    createGame tape sock playerName st
      = Ret (st', [(ToSocket sock, gameCreated roomId sock playerName)]) ∧
    getRoom (gameRooms st') roomId
      = Own (mkRoom roomId [newPlayer sock playerName] false None) ∧
    (∀ k, k ≠ roomId → ownRoom (gameRooms st') k = ownRoom (gameRooms st) k) ∧
    timers st' = timers st.
Proof.
  unfold createGame. destruct (generateRoomId tape (rng st)) as [roomId i].
  eexists. cbn [fst]. split; [done|]. cbn [gameRooms timers]. split; [|split].
  - apply getRoom_own, ownRoom_putRoom.
  - intros k Hk. by apply ownRoom_putRoom_ne.
  - done.
Qed.

(** X11. [joinGame] on an existing room: with two players already in it
    the caller gets [Game room is full] and nothing changes; otherwise the
    caller is appended as a fresh player, the room is otherwise unchanged,
    the caller gets [gameJoined] with the first player of the room as
    opponent, and the others get [playerJoined]. *)
Theorem joinGame_spec sock roomId playerName st room :
  ownRoom (gameRooms st) roomId = Some room →
  if decide (2 <= length (players room))%nat then
    joinGame sock roomId playerName st
      = Ret (st, [(ToSocket sock, error "Game room is full")])
  else
    ∃ st',
      joinGame sock roomId playerName st
        = Ret (st',
               [(ToSocket sock,
                 gameJoined roomId sock playerName
                   (List.hd_error (players room ++ [newPlayer sock playerName])));
                (ToOthers roomId sock, playerJoined sock playerName)]) ∧
      ownRoom (gameRooms st') roomId
        = Some (withRoom room (players room ++ [newPlayer sock playerName])
                         (gameStarted room) (board room)) ∧
      (∀ k, k ≠ roomId → ownRoom (gameRooms st') k = ownRoom (gameRooms st) k).
Proof.
  intros Hroom. unfold joinGame. rewrite (getRoom_own _ _ _ Hroom).
  case_decide as Hfull.
  - apply Nat.leb_le in Hfull. by rewrite Hfull.
  - apply Nat.nle_gt, Nat.leb_gt in Hfull. rewrite Hfull. eexists. split; [done|].
    cbn [gameRooms setRooms]. split; [apply ownRoom_putRoom|].
    intros k Hk. by apply ownRoom_putRoom_ne.
Qed.

Lemma joinGame_spec_witness :
  if decide (2 <= length [newPlayer "s1" "Alice"; newPlayer "s2" "Bob"])%nat then
    joinGame "s3" roomCode "Carol" restartedState
      = Ret (restartedState, [(ToSocket "s3", error "Game room is full")])
  else
    ∃ st',
      joinGame "s3" roomCode "Carol" restartedState
        = Ret (st',
               [(ToSocket "s3",
                 gameJoined roomCode "s3" "Carol"
                   (List.hd_error ([newPlayer "s1" "Alice"; newPlayer "s2" "Bob"]
                                   ++ [newPlayer "s3" "Carol"])));
                (ToOthers roomCode "s3", playerJoined "s3" "Carol")]) ∧
      ownRoom (gameRooms st') roomCode
        = Some (withRoom (mkRoom roomCode [newPlayer "s1" "Alice"; newPlayer "s2" "Bob"] false None)
                  ([newPlayer "s1" "Alice"; newPlayer "s2" "Bob"] ++ [newPlayer "s3" "Carol"])
                  false None) ∧
      (∀ k, k ≠ roomCode →
            ownRoom (gameRooms st') k = ownRoom (gameRooms restartedState) k).
Proof.
  apply (joinGame_spec "s3" roomCode "Carol" restartedState
           (mkRoom roomCode [newPlayer "s1" "Alice"; newPlayer "s2" "Bob"] false None)).
  reflexivity.
Defined.

(** X12. For a room id that is not stored (and not an inherited property
    name) every handler that takes a room id leaves the state unchanged and
    emits one error to the caller only: [Game room not found] from
    [joinGame], [playerReady], [restartGame] and [newPuzzle], and
    [Game not started] from [placeQueen] and [markCell]. *)
Theorem unknown_room sock roomId st :
  ownRoom (gameRooms st) roomId = None → roomId ∉ inheritedKeys →
  (∀ playerName,
     joinGame sock roomId playerName st
       = Ret (st, [(ToSocket sock, error "Game room not found")])) ∧
  (∀ tape fuel isReady,
     playerReady tape fuel sock roomId isReady st
       = Ret (st, [(ToSocket sock, error "Game room not found")])) ∧
  restartGame sock roomId st
    = Ret (st, [(ToSocket sock, error "Game room not found")]) ∧
  newPuzzle sock roomId st
    = Ret (st, [(ToSocket sock, error "Game room not found")]) ∧
  (∀ r c,
     placeQueen sock roomId r c st
       = Ret (st, [(ToSocket sock, error "Game not started")])) ∧
  (∀ r c,
     markCell sock roomId r c st
       = Ret (st, [(ToSocket sock, error "Game not started")])).
Proof.
  intros Hnone Hkey.
  assert (Hget : getRoom (gameRooms st) roomId = Absent).
  { unfold getRoom. rewrite Hnone. by rewrite bool_decide_eq_false_2. }
  unfold joinGame, playerReady, restartGame, newPuzzle, resetWith, placeQueen,
    markCell. rewrite Hget. done.
Qed.

Lemma unknown_room_witness :
  (∀ playerName,
     joinGame "s1" "nosuch" playerName initState
       = Ret (initState, [(ToSocket "s1", error "Game room not found")])) ∧
  (∀ tape fuel isReady,
     playerReady tape fuel "s1" "nosuch" isReady initState
       = Ret (initState, [(ToSocket "s1", error "Game room not found")])) ∧
  restartGame "s1" "nosuch" initState
    = Ret (initState, [(ToSocket "s1", error "Game room not found")]) ∧
  newPuzzle "s1" "nosuch" initState
    = Ret (initState, [(ToSocket "s1", error "Game room not found")]) ∧
  (∀ r c,
     placeQueen "s1" "nosuch" r c initState
       = Ret (initState, [(ToSocket "s1", error "Game not started")])) ∧
  (∀ r c,
     markCell "s1" "nosuch" r c initState
       = Ret (initState, [(ToSocket "s1", error "Game not started")])).
Proof.
  apply (unknown_room "s1" "nosuch" initState).
  - reflexivity.
  - apply (bool_decide_unpack _). vm_compute. exact I.
Defined.

(** X13. For a room id that is not stored but names a property inherited
    from [Object.prototype] (such as [constructor]), [joinGame],
    [playerReady], [restartGame] and [newPuzzle] throw a [TypeError], while
    [placeQueen] and [markCell] answer [Game not started]. *)
Theorem inherited_room_key sock roomId st :
  ownRoom (gameRooms st) roomId = None → roomId ∈ inheritedKeys →
  (∀ playerName, joinGame sock roomId playerName st = TypeError) ∧
  (∀ tape fuel isReady,
     playerReady tape fuel sock roomId isReady st = TypeError) ∧
  restartGame sock roomId st = TypeError ∧
  newPuzzle sock roomId st = TypeError ∧
  (∀ r c,
     placeQueen sock roomId r c st
       = Ret (st, [(ToSocket sock, error "Game not started")])) ∧
  (∀ r c,
     markCell sock roomId r c st
       = Ret (st, [(ToSocket sock, error "Game not started")])).
Proof.
  intros Hnone Hkey.
  assert (Hget : getRoom (gameRooms st) roomId = Inherited).
  { unfold getRoom. rewrite Hnone. by rewrite bool_decide_eq_true_2. }
  unfold joinGame, playerReady, restartGame, newPuzzle, resetWith, placeQueen,
    markCell. rewrite Hget. done.
Qed.

Lemma inherited_room_key_witness :
  (∀ playerName, joinGame "s1" "constructor" playerName readyState = TypeError) ∧
  (∀ tape fuel isReady,
     playerReady tape fuel "s1" "constructor" isReady readyState = TypeError) ∧
  restartGame "s1" "constructor" readyState = TypeError ∧
  newPuzzle "s1" "constructor" readyState = TypeError ∧
  (∀ r c,
     placeQueen "s1" "constructor" r c readyState
       = Ret (readyState, [(ToSocket "s1", error "Game not started")])) ∧
  (∀ r c,
     markCell "s1" "constructor" r c readyState
       = Ret (readyState, [(ToSocket "s1", error "Game not started")])).
Proof.
  apply (inherited_room_key "s1" "constructor" readyState).
  - reflexivity.
  - apply (bool_decide_unpack _). vm_compute. exact I.
Defined.

End RoomFacts.

(** ** An invariant of the rooms *)

Module InvariantFacts.
Import GameLogic Server Spec SolverFacts GeneratorFacts ServerFacts.

(** *** Peaceful markers *)

Lemma conflicts_sym g a b : conflicts g a b → conflicts g b a.
Proof. unfold conflicts, onDiagonal. intros [?|[?|[?|?]]]; auto with lia. Qed.

Lemma Peaceful_nil g : Peaceful g [].
Proof. split; [constructor|]. intros i j a b Hi. by rewrite lookup_nil in Hi. Qed.

Lemma Peaceful_snoc g qs x :
  Peaceful g qs → 0 <= row x < BOARD_SIZE →
  (∀ q, q ∈ qs → ¬ conflicts g q x) →
  Peaceful g (qs ++ [x]).
Proof.
  intros [Hrows Hpair] Hx Hno. split.
  - apply Forall_app. split; [done|]. by constructor.
  - intros i j a b Hi Hj Hij.
    apply lookup_app_Some in Hi as [Hi|[Hil Hi]];
      apply lookup_app_Some in Hj as [Hj|[Hjl Hj]].
    + by eapply Hpair.
    + apply list_lookup_singleton_Some in Hj as [_ <-].
      apply Hno. by eapply list_elem_of_lookup_2.
    + apply list_lookup_singleton_Some in Hi as [_ <-].
      intros Hc%conflicts_sym. revert Hc. apply Hno.
      by eapply list_elem_of_lookup_2.
    + apply list_lookup_singleton_Some in Hi as [Hi _].
      apply list_lookup_singleton_Some in Hj as [Hj _]. lia.
Qed.

(** At most one marker per row, and there are eight rows. *)
Lemma Peaceful_length g qs : Peaceful g qs → (length qs <= 8)%nat.
Proof.
  intros [Hrows Hpair].
  assert (Hnd : NoDup (row <$> qs)).
  { apply NoDup_alt. intros i j r Hi Hj.
    apply list_lookup_fmap_Some in Hi as (a & -> & Ha).
    apply list_lookup_fmap_Some in Hj as (b & Hr & Hb).
    destruct (decide (i = j)) as [|Hne]; [done|].
    destruct (Hpair i j a b Ha Hb Hne). by left. }
  assert (Hsub : row <$> qs ⊆+ seqZ 0 8).
  { apply NoDup_submseteq; [done|]. intros r (q & -> & Hq)%list_elem_of_fmap.
    apply elem_of_seqZ. unfold BOARD_SIZE in Hrows.
    pose proof (proj1 (Forall_forall _ _) Hrows q Hq). simpl in *. lia. }
  apply submseteq_length in Hsub. rewrite length_fmap, length_seqZ in Hsub. lia.
Qed.

Lemma Peaceful_accept b r c qs :
  wfGrid (regions b) → Peaceful (regions b) qs →
  validateQueenPlacement b r c qs = Ret Valid →
  Peaceful (regions b) (qs ++ [mkCell r c]).
Proof.
  intros Hg Hp Hv.
  destruct (ValidatorFacts.validate_Valid_inv b r c qs Hg (proj1 Hp) Hv)
    as [Hr Hno].
  by apply Peaceful_snoc.
Qed.

(** *** Rooms under updates *)

Lemma ownRoom_elem rooms k room :
  ownRoom rooms k = Some room → (k, room) ∈ rooms.
Proof.
  induction rooms as [|[k' r] rooms IH]; [done|]. simpl.
  destruct (bool_decide (k' = k)) eqn:E.
  - apply bool_decide_eq_true in E as ->. intros [= ->]. by left.
  - intros H. right. auto.
Qed.

Lemma StateOk_room st k room :
  StateOk st → ownRoom (gameRooms st) k = Some room → RoomOk room.
Proof.
  intros Hst Hroom%ownRoom_elem.
  by apply (proj1 (Forall_forall _ _) Hst (k, room)).
Qed.

Lemma Forall_putRoom (P : Room → Prop) rooms k room :
  Forall (fun kv => P kv.2) rooms → P room →
  Forall (fun kv => P kv.2) (putRoom rooms k room).
Proof.
  intros Hall Hroom. induction Hall as [|[k' r] rooms Hr Hall IH]; simpl.
  - by repeat constructor.
  - destruct (bool_decide (k' = k)); constructor; done.
Qed.

Lemma Forall_deleteRoom (P : Room → Prop) rooms k :
  Forall (fun kv => P kv.2) rooms →
  Forall (fun kv => P kv.2) (deleteRoom rooms k).
Proof.
  intros H. unfold deleteRoom. apply Forall_forall.
  intros kv [_ Hin]%list_elem_of_filter. by apply (proj1 (Forall_forall _ _) H).
Qed.

Lemma Forall_updatePlayer (P : Player → Prop) ps sock f :
  Forall P ps →
  (∀ p, findPlayer ps sock = Some p → P p → P (f p)) →
  Forall P (updatePlayer ps sock f).
Proof.
  unfold findPlayer. intros Hall. induction Hall as [|p ps Hp Hall IH]; intros Hf;
    simpl in *; [constructor|].
  destruct (bool_decide (player_id p = sock)); constructor; auto.
Qed.

Lemma length_updatePlayer ps sock f :
  length (updatePlayer ps sock f) = length ps.
Proof.
  induction ps as [|p ps IH]; [done|]. simpl.
  destruct (bool_decide _); simpl; by rewrite ?IH.
Qed.

Lemma findPlayer_elem ps sock p : findPlayer ps sock = Some p → p ∈ ps.
Proof. unfold findPlayer. intros [H _]%find_some. by apply list_elem_of_In. Qed.

Lemma PlayerOk_ext r1 r2 p :
  gameStarted r1 = gameStarted r2 → board r1 = board r2 →
  PlayerOk r1 p → PlayerOk r2 p.
Proof. unfold PlayerOk. by intros -> ->. Qed.

Lemma PlayerOk_reset room ps b p : PlayerOk (withRoom room ps false b) (resetPlayer p).
Proof.
  unfold PlayerOk. cbn. split; [lia|]. split; [done|].
  split; [intros; apply Peaceful_nil|constructor].
Qed.

Lemma PlayerOk_new room ps started b sock name :
  PlayerOk (withRoom room ps started b) (newPlayer sock name).
Proof.
  unfold PlayerOk. cbn. split; [lia|]. split; [done|].
  split; [intros; apply Peaceful_nil|constructor].
Qed.

Lemma Forall_reset room ps' b ps :
  Forall (PlayerOk (withRoom room ps' false b)) (map resetPlayer ps).
Proof.
  apply Forall_forall. intros p Hp.
  apply list_elem_of_In, in_map_iff in Hp as (p0 & <- & _).
  apply PlayerOk_reset.
Qed.

Lemma NoDup_List_filter {A} (f : A → bool) (l : list A) :
  NoDup l → NoDup (List.filter f l).
Proof.
  induction 1 as [|x l Hx Hl IH]; simpl; [constructor|].
  destruct (f x); [|done]. constructor; [|done].
  rewrite list_elem_of_In, filter_In, <- list_elem_of_In. by intros [? _].
Qed.

(** *** Each handler keeps the invariant *)

Lemma createGame_ok tape sock playerName st st' out :
  StateOk st → createGame tape sock playerName st = Ret (st', out) → StateOk st'.
Proof.
  unfold createGame. destruct (generateRoomId tape (rng st)) as [roomId i].
  intros Hst [= <- _]. unfold StateOk. cbn [gameRooms].
  apply (Forall_putRoom RoomOk); [done|].
  split; [simpl; lia|]. split; [done|].
  constructor; [|constructor]. apply (PlayerOk_new (mkRoom roomId [] false None)).
Qed.

Lemma joinGame_ok sock roomId playerName st st' out :
  StateOk st → joinGame sock roomId playerName st = Ret (st', out) → StateOk st'.
Proof.
  unfold joinGame. intros Hst H.
  destruct (getRoom (gameRooms st) roomId) as [room| |] eqn:Eget; [| done |].
  2:{ by injection H as <- _. }
  assert (Hroom : ownRoom (gameRooms st) roomId = Some room).
  { unfold getRoom in Eget. destruct (ownRoom _ _); [congruence|].
    by destruct (bool_decide _). }
  destruct (StateOk_room _ _ _ Hst Hroom) as (Hlen & Hboard & Hps).
  destruct (2 <=? length (players room))%nat eqn:Efull.
  { by injection H as <- _. }
  apply Nat.leb_gt in Efull. injection H as <- _.
  unfold StateOk. cbn [gameRooms setRooms].
  apply (Forall_putRoom RoomOk); [done|]. split; [|split].
  - cbn. rewrite length_app. simpl. lia.
  - exact Hboard.
  - cbn [players withRoom]. apply Forall_app. split.
    + eapply Forall_impl; [exact Hps|]. intros p. by apply PlayerOk_ext.
    + constructor; [|constructor]. apply PlayerOk_new.
Qed.

Lemma getRoom_Own_inv rooms k room :
  getRoom rooms k = Own room → ownRoom rooms k = Some room.
Proof.
  unfold getRoom. destruct (ownRoom rooms k); [congruence|].
  by destruct (bool_decide _).
Qed.

Lemma playerReady_ok tape fuel sock roomId isReady st st' out :
  StateOk st → playerReady tape fuel sock roomId isReady st = Ret (st', out) →
  StateOk st'.
Proof.
  unfold playerReady. intros Hst H.
  destruct (getRoom (gameRooms st) roomId) as [room| |] eqn:Eget; [| done |].
  2:{ by injection H as <- _. }
  apply getRoom_Own_inv in Eget.
  destruct (StateOk_room _ _ _ Hst Eget) as (Hlen & Hboard & Hps).
  destruct (findPlayer (players room) sock) as [player|]; [|by injection H as <- _].
  assert (Hready : ∀ r, gameStarted r = gameStarted room → board r = board room →
            Forall (PlayerOk r) (updatePlayer (players room) sock (setReady isReady))).
  { intros r Hs Hb. apply Forall_updatePlayer.
    - eapply Forall_impl; [exact Hps|]. intros p. by apply PlayerOk_ext.
    - intros p _ Hp. exact Hp. }
  destruct (_ && negb (gameStarted room)) eqn:Estart in H.
  - apply andb_true_iff in Estart as [_ Hns%negb_true_iff].
    destruct (generatePuzzleBoard tape fuel (rng st)) as [[b i]| |] eqn:Egen;
      [|discriminate H..].
    cbn [bind] in H. injection H as <- _.
    apply generatePuzzleBoard_inv in Egen as [Hgen _].
    apply generateRegions_filled in Hgen as [Hwf _].
    unfold StateOk. cbn [gameRooms].
    apply (Forall_putRoom RoomOk); [done|]. split; [|split].
    + cbn. by rewrite length_updatePlayer.
    + intros _. by exists b.
    + cbn [players withRoom]. apply Forall_updatePlayer.
      * eapply Forall_impl; [exact Hps|]. intros p (_ & Hempty & _ & Hmarks).
        unfold PlayerOk. cbn. rewrite (Hempty Hns). split; [simpl; lia|].
        split; [done|]. split; [intros; apply Peaceful_nil|done].
      * intros p _ Hp. exact Hp.
  - injection H as <- _. unfold StateOk. cbn [gameRooms setRooms].
    apply (Forall_putRoom RoomOk); [done|]. split; [|split].
    + cbn. by rewrite length_updatePlayer.
    + exact Hboard.
    + by apply Hready.
Qed.

Lemma placeQueen_ok sock roomId r c st st' out :
  StateOk st → placeQueen sock roomId r c st = Ret (st', out) → StateOk st'.
Proof.
  unfold placeQueen. intros Hst H.
  destruct (getRoom (gameRooms st) roomId) as [room| |] eqn:Eget;
    [|by injection H as <- _..].
  apply getRoom_Own_inv in Eget.
  destruct (StateOk_room _ _ _ Hst Eget) as (Hlen & Hboard & Hps).
  destruct (gameStarted room) eqn:Estarted; cbn [negb] in H;
    [|by injection H as <- _].
  destruct (findPlayer (players room) sock) as [player|] eqn:Efind;
    [|by injection H as <- _].
  destruct (Hboard eq_refl) as (b & Hb & Hwf). rewrite Hb in H.
  destruct (validateQueenPlacement b r c (queens player)) as [[|msg]| |] eqn:Ev;
    [| by injection H as <- _ | discriminate H..].
  cbn [bind] in H.
  pose proof (proj1 (Forall_forall _ _) Hps player (findPlayer_elem _ _ _ Efind))
    as (Hlt & _ & Hpeace & Hmarks).
  pose proof (Peaceful_accept b r c (queens player) Hwf (Hpeace b Hb) Ev) as Hnew.
  pose proof (Peaceful_length _ _ Hnew) as Hle.
  destruct (length (queens player ++ [mkCell r c]) =? 8)%nat eqn:Ewin.
  - injection H as <- _. unfold StateOk. cbn [gameRooms setRooms].
    apply (Forall_putRoom RoomOk); [done|]. split; [|split].
    + cbn. by rewrite length_map, length_updatePlayer.
    + done.
    + cbn [players withRoom]. apply Forall_reset.
  - apply Nat.eqb_neq in Ewin. injection H as <- _.
    unfold StateOk. cbn [gameRooms setRooms].
    apply (Forall_putRoom RoomOk); [done|]. split; [|split].
    + cbn. by rewrite length_updatePlayer.
    + cbn. intros _. by exists b.
    + cbn [players withRoom]. apply Forall_updatePlayer.
      * eapply Forall_impl; [exact Hps|]. intros p. apply PlayerOk_ext; cbn; done.
      * intros p Hp _. assert (p = player) as -> by congruence.
        unfold PlayerOk. cbn. split; [lia|]. split; [done|].
        split; [|done]. by intros b' [= <-].
Qed.

Lemma markCell_ok sock roomId r c st st' out :
  StateOk st → markCell sock roomId r c st = Ret (st', out) → StateOk st'.
Proof.
  unfold markCell. intros Hst H.
  destruct (getRoom (gameRooms st) roomId) as [room| |] eqn:Eget;
    [|by injection H as <- _..].
  apply getRoom_Own_inv in Eget.
  destruct (StateOk_room _ _ _ Hst Eget) as (Hlen & Hboard & Hps).
  destruct (negb (gameStarted room)); [by injection H as <- _|].
  destruct (findPlayer (players room) sock) as [player|] eqn:Efind;
    [|by injection H as <- _].
  destruct (existsb (sameCell r c) (queens player)); [by injection H as <- _|].
  pose proof (proj1 (Forall_forall _ _) Hps player (findPlayer_elem _ _ _ Efind))
    as (Hlt & Hempty & Hpeace & Hmarks).
  assert (Hnew : ∀ ms, NoDup ms →
            RoomOk (withRoom room (updatePlayer (players room) sock (setMarks ms))
                             (gameStarted room) (board room))).
  { intros ms Hms. split; [|split].
    - cbn. by rewrite length_updatePlayer.
    - exact Hboard.
    - cbn [players withRoom]. apply Forall_updatePlayer.
      + eapply Forall_impl; [exact Hps|]. intros p. by apply PlayerOk_ext.
      + intros p Hp _. assert (p = player) as -> by congruence. done. }
  destruct (existsb (sameCell r c) (marks player)) eqn:Emarked;
    injection H as <- _; unfold StateOk; cbn [gameRooms setRooms];
    apply (Forall_putRoom RoomOk); try done; apply Hnew.
  - by apply NoDup_List_filter.
  - apply NoDup_snoc. split; [done|].
    apply not_true_iff_false in Emarked. by rewrite existsb_sameCell in Emarked.
Qed.

Lemma resetWith_ok notice sock roomId st st' out :
  StateOk st → resetWith notice sock roomId st = Ret (st', out) → StateOk st'.
Proof.
  unfold resetWith. intros Hst H.
  destruct (getRoom (gameRooms st) roomId) as [room| |] eqn:Eget; [| done |].
  2:{ by injection H as <- _. }
  apply getRoom_Own_inv in Eget.
  destruct (StateOk_room _ _ _ Hst Eget) as (Hlen & _ & _).
  injection H as <- _. unfold StateOk. cbn [gameRooms setRooms].
  apply (Forall_putRoom RoomOk); [done|]. unfold resetRoom. split; [|split].
  - cbn. by rewrite length_map.
  - done.
  - cbn [players withRoom]. apply Forall_reset.
Qed.

Lemma leaveRoom_ok sock rooms out k :
  Forall (fun kv => RoomOk kv.2) rooms →
  Forall (fun kv => RoomOk kv.2) (leaveRoom sock (rooms, out) k).1.
Proof.
  intros Hall. unfold leaveRoom.
  destruct (ownRoom rooms k) as [room|] eqn:Eroom; [|done].
  destruct (findIndex (players room) sock) as [playerIndex|]; [|done].
  destruct (length (delete playerIndex (players room)) =? 0)%nat eqn:Eempty;
    cbn [fst].
  - by apply (Forall_deleteRoom RoomOk).
  - apply Nat.eqb_neq in Eempty. apply (Forall_putRoom RoomOk); [done|].
    apply ownRoom_elem in Eroom.
    destruct (proj1 (Forall_forall _ _) Hall _ Eroom) as (Hlen & Hboard & Hps).
    cbn [snd] in *. split; [|split].
    + cbn. pose proof (sublist_length _ _ (sublist_delete (players room) playerIndex)).
      lia.
    + exact Hboard.
    + cbn [players withRoom]. apply Forall_delete.
      eapply Forall_impl; [exact Hps|]. intros p. by apply PlayerOk_ext.
Qed.

Lemma disconnect_ok sock st st' out :
  StateOk st → disconnect sock st = Ret (st', out) → StateOk st'.
Proof.
  unfold disconnect, StateOk. intros Hst H.
  assert (Hfold : ∀ keys acc,
            Forall (fun kv => RoomOk kv.2) acc.1 →
            Forall (fun kv => RoomOk kv.2) (foldl (leaveRoom sock) acc keys).1).
  { induction keys as [|k keys IH]; intros [rooms ev] Hacc; [done|].
    cbn [foldl]. apply IH. by apply leaveRoom_ok. }
  specialize (Hfold (objectKeys (gameRooms st)) (gameRooms st, []) Hst).
  destruct (foldl _ _ _) as [rooms ev]. by injection H as <- _.
Qed.

Lemma step_ok tape fuel a st st' out :
  StateOk st → step tape fuel a st = Ret (st', out) → StateOk st'.
Proof.
  destruct a; cbn [step].
  - apply createGame_ok.
  - apply joinGame_ok.
  - apply playerReady_ok.
  - apply placeQueen_ok.
  - apply markCell_ok.
  - apply resetWith_ok.
  - apply resetWith_ok.
  - apply disconnect_ok.
  - unfold timerFires. intros Hst H. destruct (timers st) as [|[k b] rest].
    + by injection H as <- _.
    + by injection H as <- _.
Qed.

(** X14. For events whose [row] and [col] payloads are integers: in every
    state reached from the empty one, each room has one or two players, a
    started room has an 8 by 8 board, and each player has fewer than eight
    markers, none while the room is not started, all in rows of the board
    and pairwise free of conflict on the room's board, and flags without
    duplicates.  (The handlers pass [row] and [col] on as received; other
    JSON values, such as the string ["3"] for the row, are outside
    [Action] and outside this invariant.) *)
Theorem reachable_StateOk tape fuel acts st out :
  run tape fuel acts initState = Ret (st, out) → StateOk st.
Proof.
  assert (Hgen : ∀ st0, StateOk st0 →
            run tape fuel acts st0 = Ret (st, out) → StateOk st).
  { revert out. induction acts as [|a acts IH]; intros out st0 Hst0 H.
    - cbn [run] in H. by injection H as <- _.
    - cbn [run] in H.
      destruct (step tape fuel a st0) as [[st1 out1]| |] eqn:E; [|discriminate H..].
      cbn [bind] in H.
      destruct (run tape fuel acts st1) as [[st2 out2]| |] eqn:E2;
        [|discriminate H..].
      cbn [bind] in H. injection H as <- _.
      eapply IH; [|exact E2]. by eapply step_ok. }
  apply Hgen. constructor.
Qed.

Lemma reachable_StateOk_witness : StateOk readyState.
Proof.
  eapply (reachable_StateOk (tapeOf sessionDraws) 30 readyUp readyState).
  vm_compute. reflexivity.
Defined.

End InvariantFacts.

(** ** Further facts about the handlers *)

Module HandlerFacts.
Import GameLogic Server Spec SolverFacts GeneratorFacts ServerFacts RoomFacts InvariantFacts.

(** *** placeQueen *)

(** The assignment through the object returned by [find] changes one
    entry of [players]: the first one with the caller's id. *)
Lemma updatePlayer_insert ps sock f p :
  findPlayer ps sock = Some p →
  ∃ i, ps !! i = Some p ∧
       (∀ j q, (j < i)%nat → ps !! j = Some q → player_id q ≠ sock) ∧
       updatePlayer ps sock f = <[i := f p]> ps.
Proof.
  unfold findPlayer. induction ps as [|q ps IH]; intros H; [done|].
  cbn [find updatePlayer] in *.
  destruct (bool_decide (player_id q = sock)) eqn:E.
  - injection H as ->. exists 0%nat. split; [done|]. split; [|done].
    intros j q' Hj. lia.
  - apply bool_decide_eq_false in E.
    destruct (IH H) as (i & Hi & Hfirst & Hupd). exists (S i).
    split; [done|]. split.
    + intros [|j] q' Hj Hq'; [by injection Hq' as <-|].
      apply (Hfirst j); [lia|done].
    + cbn. by rewrite Hupd.
Qed.

Lemma map_reset_updatePlayer ps sock qs :
  map resetPlayer (updatePlayer ps sock (setQueens qs)) = map resetPlayer ps.
Proof.
  induction ps as [|p ps IH]; [done|]. cbn [updatePlayer].
  destruct (bool_decide _); cbn [map]; [done|]. by rewrite IH.
Qed.

(** X15. An accepted [placeQueen] emits [queenPlaced] to the room and
    changes nothing outside the caller's room: the other rooms, the
    pending deliveries and the room's id stay as they were. When the
    caller had seven markers it also emits [gameWon], the room stops and
    its players are the former ones, each reset. Otherwise the room stays
    started with its board, and its players are the former ones with one
    entry changed, the first one with the caller's id, whose markers are
    the former ones followed by the new cell. *)
Theorem placeQueen_accepts sock roomId r c st room player b :
  ownRoom (gameRooms st) roomId = Some room →
  gameStarted room = true →
  findPlayer (players room) sock = Some player →
  board room = Some b →
  validateQueenPlacement b r c (queens player) = Ret Valid →
  ∃ i st' room',
    players room !! i = Some player ∧
    (∀ j q, (j < i)%nat → players room !! j = Some q → player_id q ≠ sock) ∧
    ownRoom (gameRooms st') roomId = Some room' ∧
    (∀ k, k ≠ roomId → ownRoom (gameRooms st') k = ownRoom (gameRooms st) k) ∧
    timers st' = timers st ∧ rng st' = rng st ∧
    room_id room' = room_id room ∧
    if decide (length (queens player) = 7%nat) then
      placeQueen sock roomId r c st
        = Ret (st', [(ToRoom roomId, queenPlaced sock r c);
                     (ToRoom roomId, gameWon sock (player_name player))]) ∧
      gameStarted room' = false ∧
      players room' = map resetPlayer (players room) ∧
      Forall (fun p => ready p = false ∧ queens p = [] ∧ marks p = [])
             (players room')
    else
      placeQueen sock roomId r c st
        = Ret (st', [(ToRoom roomId, queenPlaced sock r c)]) ∧
      gameStarted room' = true ∧ board room' = Some b ∧
      players room'
        = <[i := setQueens (queens player ++ [mkCell r c]) player]> (players room) ∧
      findPlayer (players room') sock
        = Some (setQueens (queens player ++ [mkCell r c]) player).
Proof.
  intros Hroom Hstarted Hplayer Hb Hv. unfold placeQueen.
  rewrite (getRoom_own _ _ _ Hroom), Hstarted, Hplayer, Hb, Hv. cbn [negb bind].
  rewrite length_app, Nat.add_1_r. cbn [length].
  destruct (updatePlayer_insert (players room) sock
              (setQueens (queens player ++ [mkCell r c])) player Hplayer)
    as (i & Hi & Hfirst & Hupd).
  set (ps := updatePlayer (players room) sock
               (setQueens (queens player ++ [mkCell r c]))) in *.
  exists i. case_decide as Hlen.
  - rewrite Hlen. cbn [Nat.eqb].
    set (room' := withRoom room (map resetPlayer ps) false (Some b)).
    exists (setRooms st (putRoom (gameRooms st) roomId room')), room'.
    do 2 (split; [done|]). split; [apply ownRoom_putRoom|].
    split; [intros k Hk; by apply ownRoom_putRoom_ne|].
    do 3 (split; [done|]). do 2 (split; [done|]).
    cbn [players withRoom room']. split; [apply map_reset_updatePlayer|].
    apply Forall_forall. intros p Hp.
    apply list_elem_of_In, in_map_iff in Hp as (p0 & <- & _). done.
  - assert (Hne : (S (length (queens player)) =? 8)%nat = false).
    { apply Nat.eqb_neq. lia. }
    rewrite Hne.
    set (room' := withRoom room ps true (Some b)).
    exists (setRooms st (putRoom (gameRooms st) roomId room')), room'.
    do 2 (split; [done|]). split; [apply ownRoom_putRoom|].
    split; [intros k Hk; by apply ownRoom_putRoom_ne|].
    do 3 (split; [done|]). do 3 (split; [done|]).
    cbn [players withRoom room']. split; [exact Hupd|].
    by apply findPlayer_updatePlayer.
Qed.

Lemma placeQueen_accepts_witness :
  ∃ i st' room',
    [mkPlayer "s1" "Alice" true [] []; mkPlayer "s2" "Bob" true [] []] !! i
      = Some (mkPlayer "s1" "Alice" true [] []) ∧
    (∀ j q, (j < i)%nat →
            [mkPlayer "s1" "Alice" true [] []; mkPlayer "s2" "Bob" true [] []] !! j
              = Some q →
            player_id q ≠ "s1") ∧
    ownRoom (gameRooms st') roomCode = Some room' ∧
    (∀ k, k ≠ roomCode →
          ownRoom (gameRooms st') k = ownRoom (gameRooms readyState) k) ∧
    timers st' = timers readyState ∧ rng st' = rng readyState ∧
    room_id room' = roomCode ∧
    if decide (length (queens (mkPlayer "s1" "Alice" true [] [])) = 7%nat) then
      placeQueen "s1" roomCode 0 5 readyState
        = Ret (st', [(ToRoom roomCode, queenPlaced "s1" 0 5);
                     (ToRoom roomCode, gameWon "s1" "Alice")]) ∧
      gameStarted room' = false ∧
      players room'
        = map resetPlayer
            [mkPlayer "s1" "Alice" true [] []; mkPlayer "s2" "Bob" true [] []] ∧
      Forall (fun p => ready p = false ∧ queens p = [] ∧ marks p = [])
             (players room')
    else
      placeQueen "s1" roomCode 0 5 readyState
        = Ret (st', [(ToRoom roomCode, queenPlaced "s1" 0 5)]) ∧
      gameStarted room' = true ∧ board room' = Some solvableBoard ∧
      players room'
        = <[i := setQueens ([] ++ [mkCell 0 5]) (mkPlayer "s1" "Alice" true [] [])]>
            [mkPlayer "s1" "Alice" true [] []; mkPlayer "s2" "Bob" true [] []] ∧
      findPlayer (players room') "s1"
        = Some (setQueens ([] ++ [mkCell 0 5]) (mkPlayer "s1" "Alice" true [] [])).
Proof.
  apply (placeQueen_accepts "s1" roomCode 0 5 readyState
           (mkRoom roomCode
              [mkPlayer "s1" "Alice" true [] []; mkPlayer "s2" "Bob" true [] []]
              true (Some solvableBoard))
           (mkPlayer "s1" "Alice" true [] []) solvableBoard).
  - vm_compute. reflexivity.
  - reflexivity.
  - reflexivity.
  - reflexivity.
  - vm_compute. reflexivity.
Defined.

(** X16. When [placeQueen] returns without emitting [queenPlaced], the
    state is unchanged and the only event is one message to the caller. *)
Theorem placeQueen_rejected sock roomId r c st st' out :
  placeQueen sock roomId r c st = Ret (st', out) →
  (ToRoom roomId, queenPlaced sock r c) ∉ out →
  st' = st ∧ ∃ m, out = [(ToSocket sock, m)].
Proof.
  unfold placeQueen. intros H Hno.
  destruct (getRoom (gameRooms st) roomId) as [room| |];
    [|injection H as <- <-; split; [done|by eexists]..].
  destruct (negb (gameStarted room));
    [injection H as <- <-; split; [done|by eexists]|].
  destruct (findPlayer (players room) sock) as [player|];
    [|injection H as <- <-; split; [done|by eexists]].
  destruct (board room) as [b|]; [|done].
  destruct (validateQueenPlacement b r c (queens player)) as [[|msg]| |];
    [| injection H as <- <-; split; [done|by eexists] | discriminate H..].
  cbn [bind] in H. exfalso. apply Hno.
  destruct (_ =? 8)%nat; injection H as _ <-; by left.
Qed.

Lemma placeQueen_rejected_witness :
  restartedState = restartedState ∧
  ∃ m, [(ToSocket "s1", error "Game not started")] = [(ToSocket "s1", m)].
Proof.
  apply (placeQueen_rejected "s1" roomCode 0 0 restartedState restartedState
           [(ToSocket "s1", error "Game not started")]).
  - reflexivity.
  - intros Hin. apply elem_of_cons in Hin as [Hin|Hin]; [discriminate Hin|].
    by apply elem_of_nil in Hin.
Defined.

(** *** playerReady and the timer *)

(** X17. No handler schedules a delivery except a [playerReady] with
    [ready = true] that starts the round: it then schedules exactly one,
    for the board it has just generated and stored in the room, all
    players of the room are ready, and the events are [playerReadyChanged]
    followed by [gameCountdown]. *)
Theorem step_schedules tape fuel a st st' out :
  a ≠ TimerFires → step tape fuel a st = Ret (st', out) →
  timers st' = timers st ∨
  ∃ sock roomId room b,
    a = PlayerReady sock roomId true ∧
    timers st' = timers st ++ [(roomId, b)] ∧
    generatePuzzleBoard tape fuel (rng st) = Ret (b, rng st') ∧
    ownRoom (gameRooms st') roomId = Some room ∧
    gameStarted room = true ∧ board room = Some b ∧
    Forall (fun p => ready p = true) (players room) ∧
    out = [(ToRoom roomId, playerReadyChanged sock true);
           (ToRoom roomId, gameCountdown)].
Proof.
  intros Ha H. destruct a; cbn [step] in H; try done.
  - left. unfold createGame in H. destruct (generateRoomId _ _).
    by injection H as <- _.
  - left. unfold joinGame in H. repeat case_match; try done;
      by injection H as <- _.
  - unfold playerReady in H.
    destruct (getRoom (gameRooms st) roomId) as [room| |] eqn:Eget; [| done |].
    2:{ left. by injection H as <- _. }
    destruct (findPlayer (players room) sock) as [player|] eqn:Efind;
      [|left; by injection H as <- _].
    destruct (_ && negb (gameStarted room)) eqn:Estart in H;
      [|left; by injection H as <- _].
    destruct (generatePuzzleBoard tape fuel (rng st)) as [[b i]| |] eqn:Egen;
      [|discriminate H..].
    cbn [bind] in H. injection H as <- <-. right.
    apply andb_true_iff in Estart as [[_ Hall]%andb_true_iff _].
    assert (HisReady : isReady = true).
    { apply forallb_forall with (x := setReady isReady player) in Hall; [done|].
      apply list_elem_of_In, findPlayer_elem with (sock := sock).
      apply getRoom_Own_inv in Eget. by apply findPlayer_updatePlayer. }
    subst isReady.
    exists sock, roomId,
      (withRoom room (updatePlayer (players room) sock (setReady true)) true (Some b)),
      b.
    cbn [timers rng gameRooms]. repeat split; try done.
    + apply ownRoom_putRoom.
    + cbn [players withRoom]. apply Forall_forall. intros p Hp.
      apply list_elem_of_In in Hp. by apply (proj1 (forallb_forall _ _) Hall).
  - left. unfold placeQueen in H. repeat case_match; try done;
      try (by injection H as <- _).
    all: destruct (validateQueenPlacement _ _ _ _) as [[|msg]| |]; try done;
      cbn [bind] in H; repeat case_match; by injection H as <- _.
  - left. unfold markCell in H. repeat case_match; try done;
      by injection H as <- _.
  - left. unfold restartGame, resetWith in H. repeat case_match; try done;
      by injection H as <- _.
  - left. unfold newPuzzle, resetWith in H. repeat case_match; try done;
      by injection H as <- _.
  - left. unfold disconnect in H. destruct (foldl _ _ _). by injection H as <- _.
Qed.

Lemma step_schedules_witness :
  timers readyState = timers halfReadyState ∨
  ∃ sock roomId room b,
    PlayerReady "s2" roomCode true = PlayerReady sock roomId true ∧
    timers readyState = timers halfReadyState ++ [(roomId, b)] ∧
    generatePuzzleBoard (tapeOf sessionDraws) 30 (rng halfReadyState)
      = Ret (b, rng readyState) ∧
    ownRoom (gameRooms readyState) roomId = Some room ∧
    gameStarted room = true ∧ board room = Some b ∧
    Forall (fun p => ready p = true) (players room) ∧
    [(ToRoom roomCode, playerReadyChanged "s2" true);
     (ToRoom roomCode, gameCountdown)]
    = [(ToRoom roomId, playerReadyChanged sock true);
       (ToRoom roomId, gameCountdown)].
Proof.
  apply (step_schedules (tapeOf sessionDraws) 30 (PlayerReady "s2" roomCode true)
           halfReadyState readyState).
  - discriminate.
  - vm_compute. reflexivity.
Defined.

(** *** disconnect *)

Lemma findIndex_None ps sock :
  (∀ p, p ∈ ps → player_id p ≠ sock) → findIndex ps sock = None.
Proof.
  induction ps as [|p ps IH]; intros H; [done|]. simpl.
  rewrite bool_decide_eq_false_2 by (apply H; by left).
  rewrite IH; [done|]. intros q Hq. apply H. by right.
Qed.

(** X18. [disconnect] of a socket that is a player of no room changes
    nothing and emits nothing. *)
Theorem disconnect_stranger sock st :
  (∀ k room p, (k, room) ∈ gameRooms st → p ∈ players room →
               player_id p ≠ sock) →
  disconnect sock st = Ret (st, []).
Proof.
  intros Hnot. unfold disconnect.
  assert (Hfold : ∀ keys,
            foldl (leaveRoom sock) (gameRooms st, []) keys = (gameRooms st, [])).
  { induction keys as [|k keys IH]; [done|]. cbn [foldl].
    replace (leaveRoom sock (gameRooms st, []) k) with (gameRooms st, @nil Emit);
      [done|].
    unfold leaveRoom. destruct (ownRoom (gameRooms st) k) as [room|] eqn:E; [|done].
    rewrite findIndex_None; [done|]. intros p Hp.
    apply ownRoom_elem in E. by eapply Hnot. }
  rewrite Hfold. by destruct st.
Qed.

Lemma disconnect_stranger_witness :
  disconnect "s3" readyState = Ret (readyState, []).
Proof.
  apply (disconnect_stranger "s3" readyState).
  intros k room p Hroom Hp.
  apply list_elem_of_singleton in Hroom. injection Hroom as -> ->.
  cbn [players] in Hp.
  repeat (apply elem_of_cons in Hp as [->|Hp]; [discriminate|]).
  by apply elem_of_nil in Hp.
Defined.

(** Every own key is enumerated. *)
Lemma elem_of_insertIndex n k l x :
  x ∈ insertIndex n k l ↔ x = (n, k) ∨ x ∈ l.
Proof.
  induction l as [|[m k'] l IH]; simpl.
  - rewrite list_elem_of_singleton. split; [by left|].
    intros [?|H]; [done|]. by apply elem_of_nil in H.
  - destruct (n <? m)%N.
    + by rewrite elem_of_cons.
    + rewrite !elem_of_cons, IH. tauto.
Qed.

Lemma objectKeys_complete rooms k room :
  (k, room) ∈ rooms → k ∈ objectKeys rooms.
Proof.
  intros Hin. unfold objectKeys.
  assert (Hk : k ∈ map fst rooms).
  { apply list_elem_of_In, in_map_iff. exists (k, room).
    split; [done|]. by apply list_elem_of_In. }
  apply elem_of_app. destruct (arrayIndex k) as [n|] eqn:E.
  - left. apply list_elem_of_In, in_map_iff. exists (n, k). split; [done|].
    apply list_elem_of_In.
    assert (Hgen : ∀ ks acc, (k ∈ ks ∨ (n, k) ∈ acc) →
              (n, k) ∈ foldl (fun acc k =>
                               match arrayIndex k with
                               | Some n => insertIndex n k acc
                               | None => acc
                               end) acc ks).
    { induction ks as [|k0 ks IH]; intros acc [H|H]; cbn [foldl].
      - by apply elem_of_nil in H.
      - done.
      - apply IH. apply elem_of_cons in H as [<-|H]; [|by left].
        right. rewrite E. apply elem_of_insertIndex. by left.
      - apply IH. right. destruct (arrayIndex k0); [|done].
        apply elem_of_insertIndex. by right. }
    apply Hgen. by left.
  - right. apply list_elem_of_filter. done.
Qed.

Lemma ownRoom_deleteRoom rooms k k' :
  ownRoom (deleteRoom rooms k) k' =
  if bool_decide (k' = k) then None else ownRoom rooms k'.
Proof.
  unfold deleteRoom. induction rooms as [|[k0 r] rooms IH]; simpl.
  - by destruct (bool_decide _).
  - destruct (decide (k0 = k)) as [->|Hne].
    + rewrite filter_cons_False by (simpl; auto). rewrite IH.
      destruct (bool_decide (k' = k)) eqn:E; [done|].
      apply bool_decide_eq_false in E. by rewrite bool_decide_eq_false_2.
    + rewrite filter_cons_True by done. simpl. rewrite IH.
      destruct (bool_decide (k0 = k')) eqn:E0; [|done].
      apply bool_decide_eq_true in E0 as ->. by rewrite bool_decide_eq_false_2.
Qed.

(** X19. When the only player of a room disconnects, the room is removed
    from [gameRooms] and [playerDisconnected] is emitted to it. *)
Theorem disconnect_last_member sock roomId st room p :
  ownRoom (gameRooms st) roomId = Some room →
  players room = [p] → player_id p = sock →
  ∃ st' out,
    disconnect sock st = Ret (st', out) ∧
    ownRoom (gameRooms st') roomId = None ∧
    (ToRoom roomId, playerDisconnected sock (player_name p)) ∈ out.
Proof.
  intros Hroom Hps Hid. unfold disconnect.
  set (gone := fun acc : list (string * Room) * list Emit =>
                 ownRoom acc.1 roomId = None ∧
                 (ToRoom roomId, playerDisconnected sock (player_name p)) ∈ acc.2).
  assert (Hgone : ∀ keys acc, gone acc → gone (foldl (leaveRoom sock) acc keys)).
  { induction keys as [|k keys IH]; intros [rooms ev] [Hnone Hev]; [done|].
    cbn [foldl]. apply IH. unfold leaveRoom, gone in *. cbn [fst snd] in *.
    destruct (ownRoom rooms k) as [room'|] eqn:E; [|done].
    assert (Hk : k ≠ roomId) by congruence.
    destruct (findIndex (players room') sock); [|done].
    destruct (_ =? 0)%nat; cbn [fst snd].
    - rewrite ownRoom_deleteRoom, bool_decide_eq_false_2 by done.
      split; [done|]. apply elem_of_app. by left.
    - rewrite ownRoom_putRoom_ne by done.
      split; [done|]. apply elem_of_app. by left. }
  assert (Hfold : ∀ keys acc, roomId ∈ keys →
            ownRoom acc.1 roomId = Some room →
            gone (foldl (leaveRoom sock) acc keys)).
  { induction keys as [|k keys IH]; intros [rooms ev] Hin Hown.
    - by apply elem_of_nil in Hin.
    - cbn [foldl]. cbn [fst] in Hown.
      destruct (decide (k = roomId)) as [->|Hne].
      + apply Hgone. unfold leaveRoom, gone. rewrite Hown, Hps. cbn [findIndex].
        rewrite bool_decide_eq_true_2 by done. cbn [delete list_delete length Nat.eqb].
        cbn [fst snd lookup list_lookup from_option].
        rewrite ownRoom_deleteRoom, bool_decide_eq_true_2 by done.
        split; [done|]. apply elem_of_app. right. by left.
      + apply elem_of_cons in Hin as [->|Hin]; [done|]. apply IH; [done|].
        unfold leaveRoom. destruct (ownRoom rooms k) as [room'|] eqn:E; [|done].
        destruct (findIndex (players room') sock); [|done].
        destruct (_ =? 0)%nat; cbn [fst].
        * by rewrite ownRoom_deleteRoom, bool_decide_eq_false_2.
        * by rewrite ownRoom_putRoom_ne. }
  specialize (Hfold (objectKeys (gameRooms st)) (gameRooms st, [])).
  destruct (foldl _ _ _) as [rooms ev].
  destruct Hfold as [Hnone Hev];
    [by eapply objectKeys_complete, ownRoom_elem|done|].
  by exists (setRooms st rooms), ev.
Qed.

Lemma disconnect_last_member_witness :
  ∃ st' out,
    disconnect "s1" loneState = Ret (st', out) ∧
    ownRoom (gameRooms st') roomCode = None ∧
    (ToRoom roomCode, playerDisconnected "s1" "Alice") ∈ out.
Proof.
  apply (disconnect_last_member "s1" roomCode loneState
           (mkRoom roomCode [newPlayer "s1" "Alice"] false None)
           (newPlayer "s1" "Alice")).
  - vm_compute. reflexivity.
  - reflexivity.
  - reflexivity.
Defined.

(** *** markCell and the resets *)

(** X20. In a started room, [markCell] on a cell that holds one of the
    caller's own markers answers [Cell already has a queen] to the caller
    and changes nothing. *)
Theorem markCell_on_own_queen sock roomId r c st room player :
  ownRoom (gameRooms st) roomId = Some room →
  gameStarted room = true →
  findPlayer (players room) sock = Some player →
  mkCell r c ∈ queens player →
  markCell sock roomId r c st
    = Ret (st, [(ToSocket sock, invalidMove "Cell already has a queen")]).
Proof.
  intros Hroom Hstarted Hplayer Hq. unfold markCell.
  rewrite (getRoom_own _ _ _ Hroom), Hstarted, Hplayer. cbn [negb].
  by rewrite (proj2 (existsb_sameCell r c (queens player)) Hq).
Qed.

(** X21. [restartGame] and [newPuzzle] on an existing room stop it, clear
    its board, reset every player in place, notify the room, and leave the
    other rooms and the pending timers alone; afterwards [placeQueen] and
    [markCell] on that room answer [Game not started]. *)
Theorem reset_spec notice sock roomId st room :
  ownRoom (gameRooms st) roomId = Some room →
  ∃ st' room',
    resetWith notice sock roomId st = Ret (st', [(ToRoom roomId, notice)]) ∧
    ownRoom (gameRooms st') roomId = Some room' ∧
    gameStarted room' = false ∧ board room' = None ∧
    players room' = map resetPlayer (players room) ∧
    (∀ k, k ≠ roomId → ownRoom (gameRooms st') k = ownRoom (gameRooms st) k) ∧
    timers st' = timers st ∧
    (∀ r c, placeQueen sock roomId r c st'
            = Ret (st', [(ToSocket sock, error "Game not started")])) ∧
    (∀ r c, markCell sock roomId r c st'
            = Ret (st', [(ToSocket sock, error "Game not started")])).
Proof.
  intros Hroom. unfold resetWith. rewrite (getRoom_own _ _ _ Hroom).
  exists (setRooms st (putRoom (gameRooms st) roomId (resetRoom room))),
    (resetRoom room).
  split; [done|]. cbn [gameRooms setRooms timers].
  split; [apply ownRoom_putRoom|]. do 3 (split; [done|]).
  split; [intros k Hk; by apply ownRoom_putRoom_ne|]. split; [done|].
  unfold placeQueen, markCell. cbn [gameRooms setRooms].
  rewrite (getRoom_own _ _ (resetRoom room)) by apply ownRoom_putRoom. done.
Qed.

Lemma markCell_on_own_queen_witness :
  markCell "s1" roomCode 0 5 (stateOfRun (placeQueen "s1" roomCode 0 5 readyState))
  = Ret (stateOfRun (placeQueen "s1" roomCode 0 5 readyState),
         [(ToSocket "s1", invalidMove "Cell already has a queen")]).
Proof.
  eapply (markCell_on_own_queen "s1" roomCode 0 5 _ _
            (mkPlayer "s1" "Alice" true [mkCell 0 5] [])).
  - vm_compute. reflexivity.
  - reflexivity.
  - reflexivity.
  - by left.
Defined.

Lemma reset_spec_witness :
  ∃ st' room',
    resetWith gameRestarted "s1" roomCode readyState
      = Ret (st', [(ToRoom roomCode, gameRestarted)]) ∧
    ownRoom (gameRooms st') roomCode = Some room' ∧
    gameStarted room' = false ∧ board room' = None ∧
    players room'
      = map resetPlayer [mkPlayer "s1" "Alice" true [] [];
                         mkPlayer "s2" "Bob" true [] []] ∧
    (∀ k, k ≠ roomCode →
          ownRoom (gameRooms st') k = ownRoom (gameRooms readyState) k) ∧
    timers st' = timers readyState ∧
    (∀ r c, placeQueen "s1" roomCode r c st'
            = Ret (st', [(ToSocket "s1", error "Game not started")])) ∧
    (∀ r c, markCell "s1" roomCode r c st'
            = Ret (st', [(ToSocket "s1", error "Game not started")])).
Proof.
  apply (reset_spec gameRestarted "s1" roomCode readyState
           (mkRoom roomCode [mkPlayer "s1" "Alice" true [] [];
                             mkPlayer "s2" "Bob" true [] []]
                   true (Some solvableBoard))).
  reflexivity.
Defined.

End HandlerFacts.
